(** * A shallow embedding of the leveled logger of nicle-lin/log (logger.go).

    The Go package keeps one shared [coreLogger] behind many [Logger] facades,
    a buffered channel of [*Entry] drained by a dispatcher goroutine
    ([process]), and a fatal path that polls a plain counter
    ([goroutines]).  We model:
    - Go [int]s as [Z], levels as [Z] (Go's [type Level int]);
    - [*Entry] values carried on the channel as [option Entry] ([None] is
      the [nil] sentinel used by [Close]);
    - targets as records that carry the outcome of their [Open] call;
    - everything observable outside the logger (calls to a target's
      [Open]/[Process]/[Close], writes to [ErrorWriter], [panic], [os.Exit])
      as an event trace;
    - concurrency as an interleaving: a [World] holds the channels, the
      dispatcher goroutines and the caller; a schedule chooses who moves. *)

From Stdlib Require Import ZArith Lia Bool String Ascii.
From stdpp Require Import base list strings pretty.

Open Scope Z_scope.

Module GoLog.

(** ** Levels and actions (logger.go lines 20-60) *)

Definition Level := Z.
Definition LevelFatal : Level := 0.
Definition LevelError : Level := 1.
Definition LevelWarn : Level := 2.
Definition LevelInfo : Level := 3.
Definition LevelDebug : Level := 4.

Inductive Action := ActionNothing | ActionPanic | ActionExit.

(** [var Levels = map[string]Level{...}]: a Go map lookup returns the zero
    value and [false] for a missing key. *)
Definition Levels (name : string) : Level * bool :=
  if String.eqb name "Debug" then (LevelDebug, true)
  else if String.eqb name "Info" then (LevelInfo, true)
  else if String.eqb name "Warn" then (LevelWarn, true)
  else if String.eqb name "Error" then (LevelError, true)
  else if String.eqb name "Fatal" then (LevelFatal, true)
  else (0, false).

(** [strings.Title] on ASCII runes.  [isSeparator]: ASCII letters, digits
    and underscore are not separators, every other ASCII rune is.
    [unicode.ToTitle] maps a-z to A-Z and leaves other ASCII runes alone.
    The model covers ASCII runes (code < 128); the theorems about it
    assume an ASCII argument. *)
Definition is_lower (c : ascii) : bool :=
  (Nat.leb 97 (nat_of_ascii c) && Nat.leb (nat_of_ascii c) 122)%bool.
Definition is_upper (c : ascii) : bool :=
  (Nat.leb 65 (nat_of_ascii c) && Nat.leb (nat_of_ascii c) 90)%bool.
Definition is_digit (c : ascii) : bool :=
  (Nat.leb 48 (nat_of_ascii c) && Nat.leb (nat_of_ascii c) 57)%bool.

Definition isSeparator (r : ascii) : bool :=
  negb (is_digit r || is_lower r || is_upper r || Ascii.eqb r "_"%char).

Definition ToTitle (r : ascii) : ascii :=
  if is_lower r then ascii_of_nat (nat_of_ascii r - 32) else r.

(** [Title(s)] threads [prev], starting at ' '. *)
Fixpoint title_from (prev : ascii) (s : string) : string :=
  match s with
  | EmptyString => EmptyString
  | String r rest =>
      String (if isSeparator prev then ToTitle r else r) (title_from r rest)
  end.

Definition Title (s : string) : string := title_from " "%char s.

(** [func GetLevel(level string) (Level, bool)] *)
Definition GetLevel (level : string) : Level * bool :=
  let level := Title level in
  Levels level.

Definition ascii_string (s : string) : bool :=
  forallb (fun c => Nat.ltb (nat_of_ascii c) 128) (list_ascii_of_string s).

(** ** Entries, call stacks, targets *)

Record Entry := mkEntry {
  eLevel : Level;
  eCategory : string;
  eMessage : string;
  eTime : Z;
  eCallStack : string;
  eFormattedMessage : string
}.

Definition set_CallStack (e : Entry) (cs : string) : Entry :=
  mkEntry (eLevel e) (eCategory e) (eMessage e) (eTime e) cs (eFormattedMessage e).
Definition set_FormattedMessage (e : Entry) (f : string) : Entry :=
  mkEntry (eLevel e) (eCategory e) (eMessage e) (eTime e) (eCallStack e) f.

(** A stack frame as reported by [runtime.Caller]: file and line.  The
    calling goroutine's stack, innermost first, is an input of every log
    call: [runtime.Caller(i)] is [stk !! i] ([ok = false] past its end). *)
Definition Frame := (string * Z)%type.

(** [strings.Contains(s, substr)] *)
Definition Contains (s substr : string) : bool :=
  match String.index 0 substr s with Some _ => true | None => false end.

(** The loop of [GetCallStack], from frame [i] on ([frames_from] is the
    stack from index [i]); it returns the frames it writes to [buf], in
    order. *)
Fixpoint callstack_loop (frames_from : list Frame) (count frames : Z)
    (filter : string) : list Frame :=
  if count <? frames then
    match frames_from with
    | [] => []                                   (* !ok: break *)
    | (file, line) :: rest =>
        if (String.eqb filter "" || Contains file filter)%bool
        then (file, line) :: callstack_loop rest (count + 1) frames filter
        else callstack_loop rest count frames filter
    end
  else [].

(** [fmt.Fprintf(buf, "\n%s:%d", file, line)] *)
Definition render_frame (f : Frame) : string :=
  String.append (String (ascii_of_nat 10) EmptyString)
    (String.append (fst f) (String.append ":" (pretty (snd f)))).

Fixpoint concat_strings (l : list string) : string :=
  match l with [] => EmptyString | s :: r => String.append s (concat_strings r) end.

(** [func GetCallStack(skip int, frames int, filter string) string] *)
Definition GetCallStack (stk : list Frame) (skip frames : Z) (filter : string)
    : string :=
  concat_strings (map render_frame
    (callstack_loop (drop (Z.to_nat skip) stk) 0 frames filter)).

(** [type Target interface { Open; Process; Close }]: a target is known
    by an id and by what its [Open(errWriter)] returns ([Some err] is a
    non-nil error). *)
Record Target := mkTarget { tid : nat; tOpenErr : option string }.

(** What the outside world observes. *)
Inductive Event :=
| EvTargetOpen (t : Target)
| EvProcess (t : Target) (e : option Entry)
| EvTargetClose (t : Target)
| EvErrWrite (s : string)
| EvPanic (s : string)
| EvExit (code : Z).

(** ** The shared engine state ([type coreLogger struct], lines 118-133)

    [entries] is the channel the field currently points to ([None] is the
    nil channel of a logger never opened); channels themselves live in the
    [World].  [ErrorWriter] records only whether the writer is non-nil. *)
Record coreLogger := mkCore {
  open : bool;
  entries : option nat;
  goroutines : Z;
  fatalAction : Action;
  ErrorWriter : bool;
  BufferSize : Z;
  CallStackDepth : Z;
  CallStackFilter : string;
  MaxLevel : Level;
  Targets : list Target;
  SyncMode : bool
}.

Definition set_open (c : coreLogger) (b : bool) : coreLogger :=
  mkCore b (entries c) (goroutines c) (fatalAction c) (ErrorWriter c)
    (BufferSize c) (CallStackDepth c) (CallStackFilter c) (MaxLevel c)
    (Targets c) (SyncMode c).
Definition set_entries (c : coreLogger) (ch : option nat) : coreLogger :=
  mkCore (open c) ch (goroutines c) (fatalAction c) (ErrorWriter c)
    (BufferSize c) (CallStackDepth c) (CallStackFilter c) (MaxLevel c)
    (Targets c) (SyncMode c).
Definition set_goroutines (c : coreLogger) (g : Z) : coreLogger :=
  mkCore (open c) (entries c) g (fatalAction c) (ErrorWriter c)
    (BufferSize c) (CallStackDepth c) (CallStackFilter c) (MaxLevel c)
    (Targets c) (SyncMode c).
Definition set_fatalAction (c : coreLogger) (a : Action) : coreLogger :=
  mkCore (open c) (entries c) (goroutines c) a (ErrorWriter c)
    (BufferSize c) (CallStackDepth c) (CallStackFilter c) (MaxLevel c)
    (Targets c) (SyncMode c).
Definition set_Targets (c : coreLogger) (ts : list Target) : coreLogger :=
  mkCore (open c) (entries c) (goroutines c) (fatalAction c) (ErrorWriter c)
    (BufferSize c) (CallStackDepth c) (CallStackFilter c) (MaxLevel c)
    ts (SyncMode c).
Definition set_CallStackDepth (c : coreLogger) (d : Z) : coreLogger :=
  mkCore (open c) (entries c) (goroutines c) (fatalAction c) (ErrorWriter c)
    (BufferSize c) d (CallStackFilter c) (MaxLevel c) (Targets c) (SyncMode c).
Definition set_SyncMode (c : coreLogger) (b : bool) : coreLogger :=
  mkCore (open c) (entries c) (goroutines c) (fatalAction c) (ErrorWriter c)
    (BufferSize c) (CallStackDepth c) (CallStackFilter c) (MaxLevel c)
    (Targets c) b.

(** [type Formatter func( *Logger, *Entry) string]; the formatters of the
    package only read the entry, so the logger argument is dropped. *)
Definition Formatter := Entry -> string.

(** [type Logger struct { *coreLogger; Category; Formatter }]: the core is
    the one shared by the world. *)
Record Logger := mkLogger { Category : string; LFormatter : Formatter }.

(** What the runtime supplies to a log call: [time.Now()] and the calling
    goroutine's stack. *)
Record Env := mkEnv { now : Z; stack : list Frame }.

(** A buffered channel: capacity and buffered values, oldest first. *)
Record Chan := mkChan { cap : Z; buf : list (option Entry) }.

(** A dispatcher goroutine running [process]: at the top of its loop (it
    is about to evaluate [l.entries]), blocked receiving on channel [c],
    holding a received entry it is about to hand to the targets, or
    finished. *)
Inductive Gor := GStart | GRecv (c : nat) | GHave (x : option Entry) | GDone.

(** The calling goroutine: free to make a call, inside the polling loop of
    [newFatalEntry], dead by a panic, or the process has exited. *)
Inductive Caller :=
| CIdle
| CFatalWait (lg : Logger) (env : Env)
| CPanicked (msg : string)
| CExited.

Record World := mkWorld {
  core : coreLogger;
  chans : list Chan;
  gors : list Gor;
  caller : Caller;
  trace : list Event
}.

Definition set_core (w : World) (c : coreLogger) : World :=
  mkWorld c (chans w) (gors w) (caller w) (trace w).
Definition set_chans (w : World) (cs : list Chan) : World :=
  mkWorld (core w) cs (gors w) (caller w) (trace w).
Definition set_gors (w : World) (gs : list Gor) : World :=
  mkWorld (core w) (chans w) gs (caller w) (trace w).
Definition set_caller (w : World) (k : Caller) : World :=
  mkWorld (core w) (chans w) (gors w) k (trace w).
Definition add_trace (w : World) (evs : list Event) : World :=
  mkWorld (core w) (chans w) (gors w) (caller w) (trace w ++ evs).

(** ** Channel operations *)

Fixpoint find_receiver (c : nat) (gs : list Gor) (j : nat) : option nat :=
  match gs with
  | [] => None
  | GRecv c' :: rest => if Nat.eqb c c' then Some j else find_receiver c rest (S j)
  | _ :: rest => find_receiver c rest (S j)
  end.

(** [ch <- x].  A send on the nil channel blocks forever ([None]).  A send
    completes at once when the buffer has room; otherwise (an unbuffered
    channel, or a full one) it completes only by handing [x] to a
    goroutine blocked receiving on the (empty) channel.  [None] means the
    sender cannot complete now. *)
Definition chan_send (ch : option nat) (x : option Entry) (w : World)
    : option World :=
  match ch with
  | None => None
  | Some i =>
      match chans w !! i with
      | None => None
      | Some c =>
          if Z.of_nat (length (buf c)) <? cap c
          then Some (set_chans w (<[i := mkChan (cap c) (buf c ++ [x])]> (chans w)))
          else match buf c, find_receiver i (gors w) 0 with
               | [], Some j => Some (set_gors w (<[j := GHave x]> (gors w)))
               | _, _ => None
               end
      end
  end.

(** [func (l *coreLogger) syncProcess(entry *Entry)] *)
Definition syncProcess (entry : option Entry) (w : World) : World :=
  match entry with
  | None => w
  | Some _ => add_trace w (map (fun t => EvProcess t entry) (Targets (core w)))
  end.

(** One step of the dispatcher goroutine [j] running [process]:
<<
    for {
        entry := <-l.entries
        for _, target := range l.Targets { target.Process(entry) }
        l.goroutines--
        if entry == nil { break }
    }
>>
    The receive first evaluates [l.entries] (the field, re-read at every
    iteration), then blocks on that channel. *)
Definition gor_step (j : nat) (w : World) : option World :=
  match gors w !! j with
  | Some GStart =>
      match entries (core w) with
      | Some c => Some (set_gors w (<[j := GRecv c]> (gors w)))
      | None => None
      end
  | Some (GRecv c) =>
      match chans w !! c with
      | Some (mkChan k (x :: rest)) =>
          Some (set_gors (set_chans w (<[c := mkChan k rest]> (chans w)))
                  (<[j := GHave x]> (gors w)))
      | _ => None
      end
  | Some (GHave x) =>
      let w1 := add_trace w (map (fun t => EvProcess t x) (Targets (core w))) in
      let w2 := set_core w1 (set_goroutines (core w1) (goroutines (core w1) - 1)) in
      Some (set_gors w2 (<[j := match x with None => GDone | Some _ => GStart end]> (gors w2)))
  | _ => None
  end.

(** ** Logging calls *)

(** The entry built by [newEntry] for a non-fatal level (lines 320-329). *)
Definition newEntry_entry (lg : Logger) (env : Env) (c : coreLogger)
    (level : Level) (message : string) : Entry :=
  let entry := mkEntry level (Category lg) message (now env) "" "" in
  let entry :=
    if 0 <? CallStackDepth c
    then set_CallStack entry
           (GetCallStack (stack env) 3 (CallStackDepth c) (CallStackFilter c))
    else entry in
  set_FormattedMessage entry (LFormatter lg entry).

(** The entry built by [newFatalEntry] (lines 339-350). *)
Definition newFatalEntry_entry (lg : Logger) (env : Env) (c : coreLogger)
    (level : Level) (message : string) : Entry :=
  let entry := mkEntry level (Category lg) message (now env) "" "" in
  let stackDepth := CallStackDepth c in
  let stackDepth := if stackDepth =? 0 then 20 else stackDepth in
  let entry :=
    set_CallStack entry (GetCallStack (stack env) 3 stackDepth (CallStackFilter c)) in
  set_FormattedMessage entry (LFormatter lg entry).

(** [l.goroutines++; l.entries <- entry] *)
Definition enqueue (entry : Entry) (w : World) : option World :=
  let w1 := set_core w (set_goroutines (core w) (goroutines (core w) + 1)) in
  chan_send (entries (core w1)) (Some entry) w1.

(** [newFatalEntry] up to its polling loop: the caller is then left in
    [CFatalWait]. *)
Definition newFatalEntry (lg : Logger) (env : Env) (level : Level)
    (message : string) (w : World) : option World :=
  let entry := newFatalEntry_entry lg env (core w) level message in
  let w1 := syncProcess (Some entry) w in
  let w2 := if SyncMode (core w1) then Some (syncProcess (Some entry) w1)
            else enqueue entry w1 in
  match w2 with
  | Some w3 => Some (set_caller w3 (CFatalWait lg env))
  | None => None
  end.

(** One iteration of the polling loop of [newFatalEntry] (lines 359-379):
    if [l.goroutines <= 0] the fatal action is taken, otherwise the caller
    sleeps and stays in the loop.  [now'] is what [time.Now()] returns when
    the Exit action builds its entry (line 370). *)
Definition fatal_poll (now' : Z) (w : World) : World :=
  match caller w with
  | CFatalWait lg env =>
      if goroutines (core w) <=? 0 then
        match fatalAction (core w) with
        | ActionNothing => set_caller w CIdle
        | ActionPanic =>
            set_caller (add_trace w [EvPanic "Fatal error."]) (CPanicked "Fatal error.")
        | ActionExit =>
            let entry := mkEntry LevelWarn (Category lg) "Forced to exit." now' "" "" in
            let entry := set_FormattedMessage entry (LFormatter lg entry) in
            let w1 := syncProcess (Some entry) w in
            set_caller (add_trace w1 [EvExit (-1)]) CExited
        end
      else w
  | _ => w
  end.

(** [func (l *Logger) newEntry(level Level, message string)] *)
Definition newEntry (lg : Logger) (env : Env) (level : Level) (message : string)
    (w : World) : option World :=
  if level =? LevelFatal then newFatalEntry lg env level message w
  else
    let entry := newEntry_entry lg env (core w) level message in
    if SyncMode (core w) then Some (syncProcess (Some entry) w)
    else enqueue entry w.

(** [func (l *Logger) Log(level Level, a ...interface{})]; [message] is
    [fmt.Sprint(a...)]. *)
Definition Log (lg : Logger) (env : Env) (level : Level) (message : string)
    (w : World) : option World :=
  if ((MaxLevel (core w) <? level) || negb (open (core w)))%bool then Some w
  else newEntry lg env level message w.

(** [func (l *Logger) Logf(level Level, format string, a ...interface{})];
    [Sprintf] stands for [fmt.Sprintf]. *)
Definition Logf (Sprintf : string -> list string -> string) (lg : Logger)
    (env : Env) (level : Level) (format : string) (a : list string)
    (w : World) : option World :=
  if ((MaxLevel (core w) <? level) || negb (open (core w)))%bool then Some w
  else
    let message := match a with [] => format | _ => Sprintf format a end in
    newEntry lg env level message w.

(** ** Lifecycle *)

(** [target.Open(l.ErrorWriter)] for every target, keeping those that
    succeed (lines 403-411). *)
Fixpoint open_targets (ts : list Target) : list Event * list Target :=
  match ts with
  | [] => ([], [])
  | t :: rest =>
      let '(evs, kept) := open_targets rest in
      match tOpenErr t with
      | Some err =>
          (EvTargetOpen t
             :: EvErrWrite (String.append "Failed to open target: "
                              (String.append err (String (ascii_of_nat 10) EmptyString)))
             :: evs, kept)
      | None => (EvTargetOpen t :: evs, t :: kept)
      end
  end.

(** [func (l *coreLogger) Open() error]: [make(chan *Entry, BufferSize)]
    is a fresh channel, [go l.process()] a fresh dispatcher. *)
Definition Open (w : World) : World * option string :=
  let c := core w in
  if open c then (w, None)
  else if negb (ErrorWriter c) then (w, Some "Logger.ErrorWriter must be set.")
  else if BufferSize c <? 0 then (w, Some "Logger.BufferSize must be no less than 0.")
  else if CallStackDepth c <? 0 then
    (w, Some "Logger.CallStackDepth must be no less than 0.")
  else
    let i := length (chans w) in
    let '(evs, kept) := open_targets (Targets c) in
    let c1 := set_open (set_Targets (set_entries c (Some i)) kept) true in
    (mkWorld c1 (chans w ++ [mkChan (BufferSize c) []]) (gors w ++ [GStart])
       (caller w) (trace w ++ evs), None).

(** [func (l *coreLogger) Close()] (lines 448-458).  [None]: the send of
    the nil sentinel cannot complete.  The send and the [target.Close()]
    loop are one step of the model, so no dispatcher step falls between
    them: every run of the model is a run of the code, while the code
    also allows runs where a dispatcher handed the sentinel calls
    [Process(nil)] before the loop; no statement below depends on the
    order between the two. *)
Definition Close (w : World) : option World :=
  if negb (open (core w)) then Some w
  else
    let w1 := set_core w (set_open (core w) false) in
    match chan_send (entries (core w1)) None w1 with
    | None => None
    | Some w2 => Some (add_trace w2 (map EvTargetClose (Targets (core w2))))
    end.

(** [func (l *Logger) SetTarget(targets ...Target)] *)
Definition SetTarget (targets : list Target) (w : World) : option World :=
  match Close w with
  | None => None
  | Some w1 =>
      match targets with
      | [] => Some (set_core w1 (set_Targets (core w1) []))
      | _ => Some (fst (Open (set_core w1 (set_Targets (core w1) targets))))
      end
  end.

(** [func (l *Logger) AddTarget(targets ...Target)] *)
Definition AddTarget (targets : list Target) (w : World) : option World :=
  match Close w with
  | None => None
  | Some w1 =>
      Some (fst (Open (set_core w1 (set_Targets (core w1) (Targets (core w1) ++ targets)))))
  end.

(** [NewLogger]: defaults, one console target, then [Open]. *)
Definition NewLogger (console : Target) (category : string) (fmt : Formatter)
    : World * Logger :=
  let c := mkCore false None 0 ActionNothing true 1024 0 "" LevelDebug [console] false in
  (fst (Open (mkWorld c [] [] CIdle [])), mkLogger category fmt).

(** ** [LoggerWriter] (lines 70-85) *)

Record LoggerWriter := mkLoggerWriter { wLevel : Level; wLogger : Logger }.

(** How a call of [Write] ends: a runtime panic on [p[n-1]], a channel
    send that cannot complete, the caller still polling inside
    [newFatalEntry] (so [Write] has not returned), or a return. *)
Inductive WriteOutcome :=
| WriteIndexPanic
| WriteBlocked
| WriteInFatalLoop (w : World)
| WriteReturned (n : Z) (err : option string) (w : World).

Definition newline_byte : Byte.byte := Byte.x0a.

(** [func (l *LoggerWriter) Write(p []byte) (n int, err error)] *)
Definition Write (lw : LoggerWriter) (env : Env) (p : list Byte.byte) (w : World)
    : WriteOutcome :=
  let n := Z.of_nat (length p) in
  if n - 1 <? 0 then WriteIndexPanic
  else
    match p !! Z.to_nat (n - 1) with
    | None => WriteIndexPanic
    | Some b =>
        let s := if Byte.eqb b newline_byte
                 then string_of_list_byte (take (Z.to_nat (n - 1)) p)
                 else string_of_list_byte p in
        match newEntry (wLogger lw) env (wLevel lw) s w with
        | None => WriteBlocked
        | Some w' =>
            match caller w' with
            | CFatalWait _ _ => WriteInFatalLoop w'
            | _ => WriteReturned n None w'
            end
        end
    end.

(** ** Interleaved executions *)

(** The calls the calling goroutine can make. *)
Inductive Op :=
| OpOpen
| OpClose
| OpLog (lg : Logger) (env : Env) (level : Level) (message : string)
| OpSetTarget (ts : list Target)
| OpAddTarget (ts : list Target)
| OpSync (b : bool)
| OpSetFatalAction (a : Action)
| OpWrite (lw : LoggerWriter) (env : Env) (p : list Byte.byte).

Definition call (o : Op) (w : World) : option World :=
  match o with
  | OpOpen => Some (fst (Open w))
  | OpClose => Close w
  | OpLog lg env level message => Log lg env level message w
  | OpSetTarget ts => SetTarget ts w
  | OpAddTarget ts => AddTarget ts w
  | OpSync b => Some (set_core w (set_SyncMode (core w) b))
  | OpSetFatalAction a => Some (set_core w (set_fatalAction (core w) a))
  | OpWrite lw env p =>
      match Write lw env p w with
      | WriteIndexPanic =>
          Some (set_caller w (CPanicked "runtime error: index out of range [-1]"))
      | WriteBlocked => None
      | WriteInFatalLoop w' => Some w'
      | WriteReturned _ _ w' => Some w'
      end
  end.

(** A schedule entry: the caller makes a call, the caller runs one
    iteration of the fatal polling loop (reading the clock as [now']), or
    dispatcher [j] moves. *)
Inductive Sched := SCall (o : Op) | SPoll (now' : Z) | SGor (j : nat).

(** After [os.Exit] nothing moves. *)
Definition sched_step (s : Sched) (w : World) : option World :=
  match caller w, s with
  | CExited, _ => None
  | CIdle, SCall o => call o w
  | CFatalWait _ _, SPoll now' => Some (fatal_poll now' w)
  | _, SGor j => gor_step j w
  | _, _ => None
  end.

Fixpoint run (ss : list Sched) (w : World) : option World :=
  match ss with
  | [] => Some w
  | s :: rest =>
      match sched_step s w with
      | Some w' => run rest w'
      | None => None
      end
  end.

(** ** Level names ([LevelNames], lines 39-46; [Level.String], lines 62-68) *)

(** [var LevelNames = map[Level]string{...}]: [None] is a missing key. *)
Definition LevelNames (l : Level) : option string :=
  if l =? LevelDebug then Some "Debug"
  else if l =? LevelInfo then Some "Info"
  else if l =? LevelWarn then Some "Warn"
  else if l =? LevelError then Some "Error"
  else if l =? LevelFatal then Some "Fatal"
  else None.

(** [func (l Level) String() string] *)
Definition Level_String (l : Level) : string :=
  match LevelNames l with Some name => name | None => "Unknown" end.

Definition set_MaxLevel (c : coreLogger) (m : Level) : coreLogger :=
  mkCore (open c) (entries c) (goroutines c) (fatalAction c) (ErrorWriter c)
    (BufferSize c) (CallStackDepth c) (CallStackFilter c) m (Targets c) (SyncMode c).

(** ** Formatters (lines 460-467)

    [fmt.Sprintf("%v|%v|%v|%v%v", e.Time.Format(layout), e.Level,
    e.Category, e.Message, e.CallStack)]: [%v] of a string is the string,
    [%v] of a [Level] calls its [String] method.  [TimeFormat t layout]
    stands for [t.Format(layout)] of package time. *)
Definition format_with (TimeFormat : Z -> string -> string) (layout : string)
    (e : Entry) : string :=
  (TimeFormat (eTime e) layout ++ "|" ++ Level_String (eLevel e) ++ "|" ++
   eCategory e ++ "|" ++ eMessage e ++ eCallStack e)%string.

(** [time.RFC3339] *)
Definition RFC3339 : string := "2006-01-02T15:04:05Z07:00".

(** [func DefaultFormatter(l *Logger, e *Entry) string] *)
Definition DefaultFormatter (TimeFormat : Z -> string -> string) : Formatter :=
  format_with TimeFormat RFC3339.

(** [func NormalFormatter(l *Logger, e *Entry) string] *)
Definition NormalFormatter (TimeFormat : Z -> string -> string) : Formatter :=
  format_with TimeFormat "2006-01-02 15:04:05".

(** ** Constructors and settings of the facade *)

(** The category chosen by [NewLogger(args ...string)] (lines 156-159). *)
Definition NewLogger_category (args : list string) : string :=
  match args with [] => "app" | a :: _ => a end.

(** [func New(args ...string) *Logger { return NewLogger(args...) }]:
    [NewLogger] with its category rule and [Formatter: NormalFormatter]. *)
Definition New (TimeFormat : Z -> string -> string) (console : Target)
    (args : list string) : World * Logger :=
  NewLogger console (NewLogger_category args) (NormalFormatter TimeFormat).

(** [func (l *Logger) GetLogger(category string, formatter ...Formatter) *Logger]:
    the new facade shares the core (the one of the world). *)
Definition GetLogger (l : Logger) (category : string) (formatter : list Formatter)
    : Logger :=
  match formatter with
  | f :: _ => mkLogger category f
  | [] => mkLogger category (LFormatter l)
  end.

(** [func (l *Logger) Sync(args ...bool)] *)
Definition Sync (args : list bool) (w : World) : World :=
  match args with
  | [] => set_core w (set_SyncMode (core w) true)
  | b :: _ => set_core w (set_SyncMode (core w) b)
  end.

(** [func (l *Logger) SetFatalAction(action Action)] *)
Definition SetFatalAction (action : Action) (w : World) : World :=
  set_core w (set_fatalAction (core w) action).

(** [func (l *Logger) SetLevel(level string)] *)
Definition SetLevel (level : string) (w : World) : World :=
  match GetLevel level with
  | (le, true) => set_core w (set_MaxLevel (core w) le)
  | (_, false) => w
  end.

(** [Fatal], [Error], [Warn], [Info], [Debug] (lines 275-303): [Log] at a
    fixed level; [message] is [fmt.Sprint(a...)]. *)
Definition Fatal (lg : Logger) (env : Env) (message : string) (w : World) : option World :=
  Log lg env LevelFatal message w.
Definition Error (lg : Logger) (env : Env) (message : string) (w : World) : option World :=
  Log lg env LevelError message w.
Definition Warn (lg : Logger) (env : Env) (message : string) (w : World) : option World :=
  Log lg env LevelWarn message w.
Definition Info (lg : Logger) (env : Env) (message : string) (w : World) : option World :=
  Log lg env LevelInfo message w.
Definition Debug (lg : Logger) (env : Env) (message : string) (w : World) : option World :=
  Log lg env LevelDebug message w.

(** [func (l *Logger) Writer(level Level) io.Writer] *)
Definition Writer (l : Logger) (level : Level) : LoggerWriter :=
  mkLoggerWriter level l.


(** [Fatalf], [Errorf], [Warnf], [Infof], [Debugf] (lines 226-254): [Logf]
    at a fixed level. *)
Definition Fatalf (Sprintf : string -> list string -> string) (lg : Logger) (env : Env)
    (format : string) (a : list string) (w : World) : option World :=
  Logf Sprintf lg env LevelFatal format a w.
Definition Errorf (Sprintf : string -> list string -> string) (lg : Logger) (env : Env)
    (format : string) (a : list string) (w : World) : option World :=
  Logf Sprintf lg env LevelError format a w.
Definition Warnf (Sprintf : string -> list string -> string) (lg : Logger) (env : Env)
    (format : string) (a : list string) (w : World) : option World :=
  Logf Sprintf lg env LevelWarn format a w.
Definition Infof (Sprintf : string -> list string -> string) (lg : Logger) (env : Env)
    (format : string) (a : list string) (w : World) : option World :=
  Logf Sprintf lg env LevelInfo format a w.
Definition Debugf (Sprintf : string -> list string -> string) (lg : Logger) (env : Env)
    (format : string) (a : list string) (w : World) : option World :=
  Logf Sprintf lg env LevelDebug format a w.


End GoLog.

(** ** Spec-side vocabulary used in the statements below *)
Module SpecTerms.
Import GoLog.

(** ASCII lower-casing, to speak of "a casing of" a name. *)
Definition ToLower (c : ascii) : ascii :=
  if is_upper c then ascii_of_nat (nat_of_ascii c + 32) else c.
Fixpoint lower_string (s : string) : string :=
  match s with
  | EmptyString => EmptyString
  | String c rest => String (ToLower c) (lower_string rest)
  end.

(** The names [GetLevel] accepts, as the amended claim C9 lists them: a
    level name, or the same name with its first letter in lower case. *)
Definition level_by_name_or_lowered (s : string) : Level * bool :=
  if (String.eqb s "Debug" || String.eqb s "debug")%bool then (LevelDebug, true)
  else if (String.eqb s "Info" || String.eqb s "info")%bool then (LevelInfo, true)
  else if (String.eqb s "Warn" || String.eqb s "warn")%bool then (LevelWarn, true)
  else if (String.eqb s "Error" || String.eqb s "error")%bool then (LevelError, true)
  else if (String.eqb s "Fatal" || String.eqb s "fatal")%bool then (LevelFatal, true)
  else (0, false).

Fixpoint all_lower (s : string) : bool :=
  match s with
  | EmptyString => true
  | String c rest => (is_lower c && all_lower rest)%bool
  end.

(** The targets have processed [e], in order, right after the trace of
    [w] (possibly followed by more events). *)
Definition processed_now (e : Entry) (w w' : World) : Prop :=
  exists rest, trace w' = trace w ++ map (fun t => EvProcess t (Some e)) (Targets (core w)) ++ rest.

(** [e] has been handed to the dispatcher path: counted in [goroutines]
    and appended to the channel [l.entries] points to, or handed straight
    to a dispatcher blocked on it. *)
Definition queued (e : Entry) (w w' : World) : Prop :=
  goroutines (core w') = goroutines (core w) + 1 /\
  exists i, entries (core w) = Some i /\
    ((exists c, chans w !! i = Some c /\ chans w' !! i = Some (mkChan (cap c) (buf c ++ [Some e])))
     \/ (exists j, gors w' !! j = Some (GHave (Some e)))).

(** [p] with exactly one trailing newline removed, if it ends in one. *)
Definition strip_trailing_newline (p : list Byte.byte) : list Byte.byte :=
  match rev p with
  | b :: r => if Byte.eqb b newline_byte then rev r else p
  | [] => p
  end.

(** Some target has processed an entry with message [msg] in [tr]. *)
Definition processed_message (msg : string) (tr : list Event) : bool :=
  existsb (fun ev => match ev with
                     | EvProcess _ (Some e) => String.eqb (eMessage e) msg
                     | _ => false
                     end) tr.


(** Splitting a line at its first ['|']. *)
Fixpoint cut_bar (s : string) : option (string * string) :=
  match s with
  | EmptyString => None
  | String c rest =>
      if Ascii.eqb c "|"%char then Some (EmptyString, rest)
      else match cut_bar rest with
           | Some (a, b) => Some (String c a, b)
           | None => None
           end
  end.

(** The first three ['|']-separated fields of a line and the rest of it. *)
Definition parse_line (s : string) : option (string * string * string * string) :=
  match cut_bar s with
  | Some (f1, r1) =>
      match cut_bar r1 with
      | Some (f2, r2) =>
          match cut_bar r2 with
          | Some (f3, r3) => Some (f1, f2, f3, r3)
          | None => None
          end
      | None => None
      end
  | None => None
  end.

(** Whether a target's [Open] succeeds, and the events that opening it
    produces. *)
Definition opens_ok (t : Target) : bool :=
  match tOpenErr t with None => true | Some _ => false end.

Definition open_events (t : Target) : list Event :=
  EvTargetOpen t ::
  match tOpenErr t with
  | Some err =>
      [EvErrWrite (String.append "Failed to open target: "
                     (String.append err (String (ascii_of_nat 10) EmptyString)))]
  | None => []
  end.


(** Channel [k] holds [C] and nobody can take from it: [l.entries] no
    longer points to it and no dispatcher is blocked receiving on it. *)
Definition abandoned (k : nat) (C : Chan) (w : World) : Prop :=
  chans w !! k = Some C /\ entries (core w) <> Some k /\
  forall j, gors w !! j <> Some (GRecv k).

Definition target_eqb (t u : Target) : bool :=
  (Nat.eqb (tid t) (tid u) &&
   match tOpenErr t, tOpenErr u with
   | None, None => true
   | Some a, Some b => String.eqb a b
   | _, _ => false
   end)%bool.

(** How many times target [t] has processed an entry with message [msg]. *)
Definition count_processed (t : Target) (msg : string) (tr : list Event) : nat :=
  length (List.filter (fun ev => match ev with
                                 | EvProcess u (Some e) =>
                                     (target_eqb t u && String.eqb (eMessage e) msg)%bool
                                 | _ => false
                                 end) tr).

End SpecTerms.

(** ** Concrete inputs used by the witnesses and counterexamples *)
Module Scenario.
Import GoLog.

(** [NewConsoleTarget()], whose [Open] succeeds, and two more targets. *)
Definition console : Target := mkTarget 0 None.
Definition t2 : Target := mkTarget 1 None.
Definition t3 : Target := mkTarget 2 None.

(** A formatter that renders the message only. *)
Definition plain : Formatter := fun e => eMessage e.

(** [log := NewLogger()] and its world. *)
Definition w0 : World := fst (NewLogger console "app" plain).
Definition app : Logger := snd (NewLogger console "app" plain).

(** A call site three frames below a user function in app.go. *)
Definition env0 : Env :=
  mkEnv 0 [("logger.go", 327); ("logger.go", 311); ("logger.go", 296); ("app.go", 12)].

(** Two [AddTarget] calls, each dispatcher consuming its nil sentinel
    (every consumed sentinel decrements [goroutines] without a matching
    increment), then [SetFatalAction(ActionExit)], [Info("a")],
    [Fatal("boom")] and one iteration of the polling loop. *)
Definition drift_schedule : list Sched :=
  [SGor 0; SCall (OpAddTarget [t2]); SGor 0; SGor 0;
   SGor 1; SCall (OpAddTarget [t3]); SGor 1; SGor 1;
   SCall (OpSetFatalAction ActionExit);
   SCall (OpLog app env0 LevelInfo "a");
   SCall (OpLog app env0 LevelFatal "boom");
   SPoll 0].


(** An engine opened with [BufferSize = 0]: its channel is unbuffered and
    its dispatcher has not reached its first receive yet. *)
Definition w_unbuffered : World :=
  fst (Open (mkWorld (mkCore false None 0 ActionNothing true 0 0 "" LevelDebug [console] false)
               [] [] CIdle [])).

(** A time formatter that prints the layout itself. *)
Definition layout_only : Z -> string -> string := fun _ layout => layout.


(** [Info("a")], [Info("b")]; the dispatcher receives "a"; [AddTarget(t2)]
    (the nil sentinel goes into the old channel behind "b"); the old
    dispatcher then finishes "a", re-reads [l.entries] and blocks on the
    new channel. *)
Definition lost_schedule : list Sched :=
  [SGor 0; SCall (OpLog app env0 LevelInfo "a"); SCall (OpLog app env0 LevelInfo "b");
   SGor 0; SCall (OpAddTarget [t2]); SGor 0; SGor 0].

End Scenario.

(** * Properties *)
Module Claims.
Import GoLog SpecTerms Scenario.

(** ** [GetLevel] *)

Lemma ToTitle_not_lower (c : ascii) : is_lower (ToTitle c) = false.
Proof.
  unfold ToTitle. destruct (is_lower c) eqn:Hl; [|exact Hl].
  unfold is_lower in *. apply andb_true_iff in Hl as [H1 H2].
  apply Nat.leb_le in H1. apply Nat.leb_le in H2.
  rewrite nat_ascii_embedding by lia.
  apply andb_false_iff. left. apply Nat.leb_gt. lia.
Qed.

Lemma upper_not_separator (c : ascii) : is_upper c = true -> isSeparator c = false.
Proof. intros H. unfold isSeparator. rewrite H. now rewrite !orb_true_r. Qed.

Lemma lower_not_separator (c : ascii) : is_lower c = true -> isSeparator c = false.
Proof. intros H. unfold isSeparator. rewrite H. now rewrite orb_true_r. Qed.

Lemma upper_not_lower (c : ascii) : is_upper c = true -> is_lower c = false.
Proof.
  unfold is_upper, is_lower. intros H. apply andb_true_iff in H as [H1 H2].
  apply Nat.leb_le in H2. apply andb_false_iff. left. apply Nat.leb_gt. lia.
Qed.

(** Past the first rune, [Title] can only produce a lower-case rune by
    copying it from a word that is already running. *)
Lemma title_from_all_lower (prev : ascii) (s r : string) :
  all_lower r = true -> title_from prev s = r ->
  s = r /\ (r <> EmptyString -> isSeparator prev = false).
Proof.
  revert prev r. induction s as [|c s IH]; intros prev r Hr Ht; simpl in Ht.
  - subst. split; [reflexivity|congruence].
  - destruct r as [|r0 r]; [discriminate|].
    injection Ht as H0 Hs. simpl in Hr. apply andb_true_iff in Hr as [Hc Hr].
    destruct (isSeparator prev) eqn:Hp.
    + subst r0. rewrite ToTitle_not_lower in Hc. discriminate.
    + subst r0. destruct (IH c _ Hr Hs) as [-> _]. split; [reflexivity|auto].
Qed.

Lemma title_from_lower_id (prev : ascii) (r : string) :
  all_lower r = true -> isSeparator prev = false -> title_from prev r = r.
Proof.
  revert prev. induction r as [|c r IH]; intros prev Hr Hp; [reflexivity|].
  simpl in *. apply andb_true_iff in Hr as [Hc Hr]. rewrite Hp.
  f_equal. apply IH; [exact Hr|]. now apply lower_not_separator.
Qed.

Lemma ToTitle_eq_upper (c K : ascii) :
  is_upper K = true -> ToTitle c = K ->
  c = K \/ c = ascii_of_nat (nat_of_ascii K + 32).
Proof.
  intros HK. unfold ToTitle. destruct (is_lower c) eqn:Hl; [|now left].
  intros H. right. unfold is_lower in Hl. apply andb_true_iff in Hl as [H1 H2].
  apply Nat.leb_le in H1. apply Nat.leb_le in H2.
  rewrite <- H, nat_ascii_embedding by lia.
  rewrite <- (ascii_nat_embedding c) at 1. f_equal. lia.
Qed.

Lemma ToTitle_lowered (K : ascii) :
  is_upper K = true -> ToTitle (ascii_of_nat (nat_of_ascii K + 32)) = K.
Proof.
  intros HK. unfold is_upper in HK. apply andb_true_iff in HK as [H1 H2].
  apply Nat.leb_le in H1. apply Nat.leb_le in H2.
  unfold ToTitle, is_lower. rewrite nat_ascii_embedding by lia.
  replace (Nat.leb 97 (nat_of_ascii K + 32)) with true by (symmetry; apply Nat.leb_le; lia).
  replace (Nat.leb (nat_of_ascii K + 32) 122) with true by (symmetry; apply Nat.leb_le; lia).
  simpl. replace (nat_of_ascii K + 32 - 32)%nat with (nat_of_ascii K) by lia.
  apply ascii_nat_embedding.
Qed.

Lemma lowered_is_lower (K : ascii) :
  is_upper K = true -> is_lower (ascii_of_nat (nat_of_ascii K + 32)) = true.
Proof.
  intros HK. unfold is_upper in HK. apply andb_true_iff in HK as [H1 H2].
  apply Nat.leb_le in H1. apply Nat.leb_le in H2.
  unfold is_lower. rewrite nat_ascii_embedding by lia.
  apply andb_true_iff; split; apply Nat.leb_le; lia.
Qed.

(** [Title s] is a capitalised word exactly when [s] is that word, or that
    word with its first letter lowered. *)
Lemma Title_eq_word (s : string) (K : ascii) (rest : string) :
  is_upper K = true -> all_lower rest = true -> rest <> EmptyString ->
  Title s = String K rest <->
  s = String K rest \/ s = String (ascii_of_nat (nat_of_ascii K + 32)) rest.
Proof.
  intros HK Hr Hne. unfold Title. split.
  - destruct s as [|c s']; simpl; [discriminate|].
    intros H. injection H as Hc Hs.
    destruct (title_from_all_lower c s' rest Hr Hs) as [-> _].
    destruct (ToTitle_eq_upper c K HK Hc) as [-> | ->]; auto.
  - intros [-> | ->]; simpl; f_equal.
    + unfold ToTitle. now rewrite upper_not_lower.
    + apply title_from_lower_id; [exact Hr|]. now apply upper_not_separator.
    + now apply ToTitle_lowered.
    + apply title_from_lower_id; [exact Hr|].
      now apply lower_not_separator, lowered_is_lower.
Qed.

Lemma Title_eqb_word (s : string) (K : ascii) (rest k lk : string) :
  is_upper K = true -> all_lower rest = true -> rest <> EmptyString ->
  k = String K rest -> lk = String (ascii_of_nat (nat_of_ascii K + 32)) rest ->
  String.eqb (Title s) k = (String.eqb s k || String.eqb s lk)%bool.
Proof.
  intros HK Hr Hne -> ->.
  destruct (String.eqb_spec (Title s) (String K rest)) as [E|E].
  - apply Title_eq_word in E; [|assumption..].
    destruct E as [-> | ->]; rewrite String.eqb_refl; [reflexivity|now rewrite orb_true_r].
  - symmetry. apply orb_false_iff. split; apply String.eqb_neq; intros ->; apply E;
      apply Title_eq_word; auto.
Qed.

(** C9: [GetLevel] accepts a level name and the same name with a lower-case
    first letter, and nothing else. *)
Theorem GetLevel_accepts_name_or_lowered (s : string) (Hs : ascii_string s = true) :
  GetLevel s = level_by_name_or_lowered s.
Proof.
  unfold GetLevel, Levels, level_by_name_or_lowered.
  rewrite (Title_eqb_word s "D" "ebug" "Debug" "debug") by (reflexivity || discriminate).
  rewrite (Title_eqb_word s "I" "nfo" "Info" "info") by (reflexivity || discriminate).
  rewrite (Title_eqb_word s "W" "arn" "Warn" "warn") by (reflexivity || discriminate).
  rewrite (Title_eqb_word s "E" "rror" "Error" "error") by (reflexivity || discriminate).
  rewrite (Title_eqb_word s "F" "atal" "Fatal" "fatal") by (reflexivity || discriminate).
  reflexivity.
Qed.

Lemma GetLevel_accepts_name_or_lowered_witness :
  ascii_string "debug" = true /\ GetLevel "debug" = (LevelDebug, true) /\
  GetLevel "Debug" = (LevelDebug, true) /\ GetLevel "verbose" = (0, false).
Proof.
  split; [reflexivity|].
  split; [rewrite (GetLevel_accepts_name_or_lowered "debug" eq_refl); reflexivity|].
  split; [rewrite (GetLevel_accepts_name_or_lowered "Debug" eq_refl); reflexivity|].
  rewrite (GetLevel_accepts_name_or_lowered "verbose" eq_refl); reflexivity.
Defined.

(** C9 as stated fails: "DEBUG" is a casing of "Debug", and [GetLevel]
    does not find it. *)
Lemma GetLevel_not_case_insensitive :
  ~ (forall s, lower_string s = "debug" -> GetLevel s = (LevelDebug, true)).
Proof.
  intros H. specialize (H "DEBUG" eq_refl). vm_compute in H. discriminate.
Qed.

(** ** Lifecycle: [Open], [Close], [SetTarget], [AddTarget] *)

Lemma chan_send_frame (ch : option nat) (x : option Entry) (w w' : World) :
  chan_send ch x w = Some w' ->
  core w' = core w /\ trace w' = trace w /\ caller w' = caller w.
Proof.
  unfold chan_send. destruct ch as [i|]; [|discriminate].
  destruct (chans w !! i) as [c|]; [|discriminate].
  destruct (_ <? _); [intros [= <-]; auto|].
  destruct (buf c); [|discriminate].
  destruct (find_receiver i (gors w) 0); [intros [= <-]; auto|discriminate].
Qed.

Lemma Open_valid (w : World) :
  open (core w) = false -> ErrorWriter (core w) = true ->
  0 <= BufferSize (core w) -> 0 <= CallStackDepth (core w) ->
  snd (Open w) = None /\
  open (core (fst (Open w))) = true /\
  entries (core (fst (Open w))) = Some (length (chans w)) /\
  chans (fst (Open w)) = chans w ++ [mkChan (BufferSize (core w)) []] /\
  gors (fst (Open w)) = gors w ++ [GStart] /\
  Targets (core (fst (Open w))) = snd (open_targets (Targets (core w))).
Proof.
  intros Ho He Hb Hd. unfold Open. rewrite Ho, He. simpl.
  replace (BufferSize (core w) <? 0) with false by (symmetry; apply Z.ltb_ge; lia).
  replace (CallStackDepth (core w) <? 0) with false by (symmetry; apply Z.ltb_ge; lia).
  destruct (open_targets (Targets (core w))) as [evs kept]. simpl. auto 10.
Qed.

(** C6: [Open] is a no-op on an open engine; on a closed one it fails
    without touching the state when the configuration is invalid, and
    otherwise succeeds, allocates a fresh channel of capacity [BufferSize],
    starts a dispatcher and sets [open]. *)
Theorem Open_contract (w : World) :
  (open (core w) = true -> Open w = (w, None)) /\
  (open (core w) = false ->
     (ErrorWriter (core w) = false \/ BufferSize (core w) < 0 \/
      CallStackDepth (core w) < 0) ->
     exists err, Open w = (w, Some err)) /\
  (open (core w) = false -> ErrorWriter (core w) = true ->
     0 <= BufferSize (core w) -> 0 <= CallStackDepth (core w) ->
     snd (Open w) = None /\
     open (core (fst (Open w))) = true /\
     entries (core (fst (Open w))) = Some (length (chans w)) /\
     chans (fst (Open w)) = chans w ++ [mkChan (BufferSize (core w)) []] /\
     gors (fst (Open w)) = gors w ++ [GStart]).
Proof.
  split; [|split].
  - intros Ho. unfold Open. now rewrite Ho.
  - intros Ho Hbad. unfold Open. rewrite Ho.
    destruct (ErrorWriter (core w)) eqn:He; simpl; [|eauto].
    destruct (BufferSize (core w) <? 0) eqn:Hb; [eauto|].
    destruct (CallStackDepth (core w) <? 0) eqn:Hd; [eauto|].
    apply Z.ltb_ge in Hb. apply Z.ltb_ge in Hd. exfalso. lia.
  - intros Ho He Hb Hd. destruct (Open_valid w Ho He Hb Hd) as (? & ? & ? & ? & ? & _).
    auto.
Qed.

(** C7: closing twice is closing once; the first [Close] of an open engine
    sets [open] to false and closes every target exactly once; a closed
    engine is left as it is. *)
Theorem Close_idempotent (w : World) :
  match Close w with Some w1 => Close w1 | None => None end = Close w /\
  (open (core w) = false -> Close w = Some w) /\
  (forall w1, open (core w) = true -> Close w = Some w1 ->
     open (core w1) = false /\
     trace w1 = trace w ++ map EvTargetClose (Targets (core w))).
Proof.
  assert (Hopen : forall w1, open (core w) = true -> Close w = Some w1 ->
     open (core w1) = false /\
     trace w1 = trace w ++ map EvTargetClose (Targets (core w))).
  { intros w1 Ho. unfold Close. rewrite Ho. simpl.
    destruct (chan_send _ None _) as [w2|] eqn:Hs; [|discriminate].
    apply chan_send_frame in Hs as (Hc & Ht & _). intros [= <-].
    simpl. rewrite Hc, Ht. simpl. auto. }
  split; [|split; [|exact Hopen]].
  - destruct (open (core w)) eqn:Ho.
    + destruct (Close w) as [w1|] eqn:Hc; [|reflexivity].
      destruct (Hopen w1 eq_refl eq_refl) as [Ho1 _].
      unfold Close at 1. now rewrite Ho1.
    + unfold Close. rewrite Ho. simpl. now rewrite Ho.
  - intros Ho. unfold Close. now rewrite Ho.
Qed.

Lemma Close_core (w w1 : World) :
  Close w = Some w1 -> core w1 = set_open (core w) false.
Proof.
  unfold Close. destruct (open (core w)) eqn:Ho; simpl.
  - destruct (chan_send _ None _) as [w2|] eqn:Hs; [|discriminate].
    apply chan_send_frame in Hs as (Hc & _ & _). intros [= <-]. simpl. now rewrite Hc.
  - intros [= <-]. destruct w as [[] ? ? ? ?]; simpl in *; now subst.
Qed.

Lemma reopen_opens (w1 : World) (ts : list Target) :
  core w1 = set_open (core w1) false ->
  ErrorWriter (core w1) = true -> 0 <= BufferSize (core w1) -> 0 <= CallStackDepth (core w1) ->
  open (core (fst (Open (set_core w1 (set_Targets (core w1) ts))))) = true.
Proof.
  intros Hc He Hb Hd.
  apply (Open_valid (set_core w1 (set_Targets (core w1) ts))); simpl; auto.
  rewrite Hc. reflexivity.
Qed.

(** C8 (amended): [SetTarget] and [AddTarget] first [Close] the engine,
    change the target list while [open] is false, then call [Open], which
    reopens the engine whenever the configuration is valid; [SetTarget]
    with no target empties the list and leaves the engine closed. *)
Theorem SetTarget_AddTarget_close_then_open (ts : list Target) (w w' : World) :
  (SetTarget ts w = Some w' ->
     exists w1, Close w = Some w1 /\ open (core w1) = false /\
       match ts with
       | [] => w' = set_core w1 (set_Targets (core w1) [])
       | _ :: _ =>
           w' = fst (Open (set_core w1 (set_Targets (core w1) ts))) /\
           (ErrorWriter (core w) = true -> 0 <= BufferSize (core w) ->
            0 <= CallStackDepth (core w) -> open (core w') = true)
       end) /\
  (AddTarget ts w = Some w' ->
     exists w1, Close w = Some w1 /\ open (core w1) = false /\
       w' = fst (Open (set_core w1 (set_Targets (core w1) (Targets (core w1) ++ ts)))) /\
       (ErrorWriter (core w) = true -> 0 <= BufferSize (core w) ->
        0 <= CallStackDepth (core w) -> open (core w') = true)).
Proof.
  split.
  - unfold SetTarget. destruct (Close w) as [w1|] eqn:Hc; [|discriminate].
    pose proof (Close_core w w1 Hc) as Hcore.
    intros Hs. exists w1. split; [reflexivity|]. split; [rewrite Hcore; reflexivity|].
    destruct ts as [|t ts']; injection Hs as <-; [reflexivity|].
    split; [reflexivity|]. intros He Hb Hd.
    apply reopen_opens; rewrite Hcore; simpl; auto.
  - unfold AddTarget. destruct (Close w) as [w1|] eqn:Hc; [|discriminate].
    pose proof (Close_core w w1 Hc) as Hcore.
    intros [= <-]. exists w1. split; [reflexivity|]. split; [rewrite Hcore; reflexivity|].
    split; [reflexivity|]. intros He Hb Hd.
    apply reopen_opens; rewrite Hcore; simpl; auto.
Qed.

Lemma SetTarget_AddTarget_close_then_open_witness :
  SetTarget [t2] w0 = Some (fst (Open (set_core (match Close w0 with Some w1 => w1 | None => w0 end)
                                   (set_Targets (core (match Close w0 with Some w1 => w1 | None => w0 end)) [t2])))) /\
  open (core (match SetTarget [t2] w0 with Some w' => w' | None => w0 end)) = true.
Proof.
  split; [vm_compute; reflexivity|].
  destruct (proj1 (SetTarget_AddTarget_close_then_open [t2] w0
                     (match SetTarget [t2] w0 with Some w' => w' | None => w0 end))
              ltac:(vm_compute; reflexivity)) as (w1 & _ & _ & _ & Hopen).
  apply Hopen; vm_compute; congruence.
Defined.

(** C8 as stated fails: [SetTarget()] with no target leaves the engine
    closed. *)
Lemma SetTarget_empty_leaves_closed :
  open (core w0) = true /\
  exists w', SetTarget [] w0 = Some w' /\ open (core w') = false /\ Targets (core w') = [].
Proof.
  split; [vm_compute; reflexivity|].
  eexists. split; [vm_compute; reflexivity|]. vm_compute. split; reflexivity.
Qed.

Lemma Open_contract_witness :
  open (core (fst (Open (set_core w0 (set_open (core w0) false))))) = true /\
  Open w0 = (w0, None).
Proof.
  split.
  - destruct (Open_contract (set_core w0 (set_open (core w0) false))) as (_ & _ & H3).
    destruct (H3 eq_refl eq_refl ltac:(vm_compute; congruence) ltac:(vm_compute; congruence))
      as (_ & Ho & _). exact Ho.
  - destruct (Open_contract w0) as (H1 & _ & _). apply H1. vm_compute. reflexivity.
Defined.

Lemma Close_idempotent_witness :
  match Close w0 with Some w1 => Close w1 | None => None end = Close w0 /\
  (forall w1, Close w0 = Some w1 -> open (core w1) = false).
Proof.
  split; [exact (proj1 (Close_idempotent w0))|].
  intros w1 Hc. destruct (Close_idempotent w0) as (_ & _ & H3).
  apply (H3 w1); [vm_compute; reflexivity|exact Hc].
Defined.

(** ** Call stacks *)

Lemma callstack_loop_length (l : list Frame) (count frames : Z) (filter : string) :
  Z.of_nat (length (callstack_loop l count frames filter)) <= Z.max 0 (frames - count).
Proof.
  revert count. induction l as [|[file line] rest IH]; intros count; simpl.
  - destruct (count <? frames); simpl; lia.
  - destruct (count <? frames) eqn:Hlt; simpl; [|lia].
    apply Z.ltb_lt in Hlt.
    destruct (String.eqb filter "" || Contains file filter)%bool; simpl.
    + specialize (IH (count + 1)). lia.
    + apply IH.
Qed.

Lemma callstack_loop_frames (l : list Frame) (count frames : Z) (filter : string) (f : Frame) :
  In f (callstack_loop l count frames filter) ->
  In f l /\ (String.eqb filter "" || Contains (fst f) filter)%bool = true.
Proof.
  revert count. induction l as [|[file line] rest IH]; intros count; simpl.
  - destruct (count <? frames); simpl; tauto.
  - destruct (count <? frames); simpl; [|tauto].
    destruct (String.eqb filter "" || Contains file filter)%bool eqn:Hf; simpl.
    + intros [<- | Hin]; [auto|]. destruct (IH _ Hin). auto.
    + intros Hin. destruct (IH _ Hin). auto.
Qed.

(** C5 (amended): non-Fatal entries carry a stack exactly when
    [CallStackDepth > 0]; Fatal entries always carry one, of depth 20 when
    [CallStackDepth = 0]; a captured stack is the rendering of at most
    [frames] frames taken past the 3 skipped ones and passing the filter. *)
Theorem entry_call_stack (lg : Logger) (env : Env) (c : coreLogger)
    (level : Level) (message : string) :
  (level <> LevelFatal ->
     eCallStack (newEntry_entry lg env c level message) =
     if 0 <? CallStackDepth c
     then GetCallStack (stack env) 3 (CallStackDepth c) (CallStackFilter c)
     else "") /\
  eCallStack (newFatalEntry_entry lg env c level message) =
    GetCallStack (stack env) 3
      (if CallStackDepth c =? 0 then 20 else CallStackDepth c) (CallStackFilter c) /\
  (forall stk frames filter, exists fs,
     GetCallStack stk 3 frames filter = concat_strings (map render_frame fs) /\
     Z.of_nat (length fs) <= Z.max 0 frames /\
     (forall f, In f fs -> In f (drop 3 stk) /\
        (String.eqb filter "" || Contains (fst f) filter)%bool = true)).
Proof.
  split; [|split].
  - intros _. unfold newEntry_entry. destruct (0 <? CallStackDepth c); reflexivity.
  - reflexivity.
  - intros stk frames filter. eexists. split; [reflexivity|]. split.
    + pose proof (callstack_loop_length (drop (Z.to_nat 3) stk) 0 frames filter). lia.
    + intros f Hf. exact (callstack_loop_frames _ _ _ _ f Hf).
Qed.

Lemma entry_call_stack_witness :
  eCallStack (newEntry_entry app env0 (core w0) LevelInfo "x") = "" /\
  eCallStack (newEntry_entry app env0 (set_CallStackDepth (core w0) 1) LevelInfo "x")
    = GetCallStack (stack env0) 3 1 "".
Proof.
  split.
  - rewrite (proj1 (entry_call_stack app env0 (core w0) LevelInfo "x")) by discriminate.
    reflexivity.
  - rewrite (proj1 (entry_call_stack app env0 _ LevelInfo "x")) by discriminate.
    reflexivity.
Defined.

(** C5 as stated fails: with [CallStackDepth = 0] a Fatal call still hands
    its targets an entry with a call stack. *)
Lemma fatal_entry_has_stack_at_depth_0 :
  CallStackDepth (core w0) = 0 /\
  exists w', Log app env0 LevelFatal "boom" w0 = Some w' /\
    exists e, In (EvProcess console (Some e)) (trace w') /\ eCallStack e <> "".
Proof.
  split; [reflexivity|]. eexists. split; [vm_compute; reflexivity|].
  eexists. split.
  - vm_compute. right. left. reflexivity.
  - vm_compute. discriminate.
Qed.

(** ** Delivery of log calls *)

Lemma find_receiver_spec (c : nat) (gs : list Gor) (k j : nat) :
  find_receiver c gs k = Some j -> (k <= j)%nat /\ gs !! (j - k)%nat = Some (GRecv c).
Proof.
  revert k. induction gs as [|g gs IH]; intros k; simpl; [discriminate|].
  destruct g as [|c'| |];
    try (intros H; destruct (IH (S k) H) as [Hle Hl];
         split; [lia|]; replace (j - k)%nat with (S (j - S k)) by lia; exact Hl).
  destruct (Nat.eqb_spec c c') as [->|Hne].
  - intros [= <-]. split; [lia|]. now rewrite Nat.sub_diag.
  - intros H; destruct (IH (S k) H) as [Hle Hl].
    split; [lia|]. replace (j - k)%nat with (S (j - S k)) by lia. exact Hl.
Qed.

Lemma chan_send_spec (ch : option nat) (x : option Entry) (w w' : World) :
  chan_send ch x w = Some w' ->
  exists i, ch = Some i /\
    ((exists c, chans w !! i = Some c /\ chans w' !! i = Some (mkChan (cap c) (buf c ++ [x])))
     \/ (exists j, gors w' !! j = Some (GHave x))).
Proof.
  unfold chan_send. destruct ch as [i|]; [|discriminate].
  destruct (chans w !! i) as [c|] eqn:Hc; [|discriminate].
  intros H. exists i. split; [reflexivity|]. revert H.
  destruct (_ <? _).
  - intros [= <-]. left. exists c. split; [exact Hc|]. simpl.
    apply list_lookup_insert_eq. apply lookup_lt_is_Some. eauto.
  - destruct (buf c); [|discriminate].
    destruct (find_receiver i (gors w) 0) as [j|] eqn:Hf; [|discriminate].
    intros [= <-]. right. exists j. simpl.
    apply find_receiver_spec in Hf as [_ Hl]. rewrite Nat.sub_0_r in Hl.
    apply list_lookup_insert_eq. apply lookup_lt_is_Some. eauto.
Qed.

Lemma newEntry_hands_over (lg : Logger) (env : Env) (level : Level) (message : string)
    (w w' : World) :
  newEntry lg env level message w = Some w' ->
  exists e, eLevel e = level /\ eMessage e = message /\
    (processed_now e w w' \/ (SyncMode (core w) = false /\ queued e w w')).
Proof.
  unfold newEntry. intros H. destruct (level =? LevelFatal) eqn:Hf.
  - apply Z.eqb_eq in Hf. unfold newFatalEntry in H.
    set (e := newFatalEntry_entry lg env (core w) level message) in H.
    exists e. split; [reflexivity|]. split; [reflexivity|]. left.
    destruct (SyncMode (core _)) eqn:Hs in H.
    + injection H as <-. unfold set_caller, add_trace. simpl.
      exists (map (fun t => EvProcess t (Some e)) (Targets (core w))).
      now rewrite <- !app_assoc.
    + destruct (enqueue e _) as [w3|] eqn:He; [|discriminate]. injection H as <-.
      unfold enqueue in He. apply chan_send_frame in He as (_ & Ht & _).
      unfold set_caller. simpl. rewrite Ht. simpl. exists []. now rewrite app_nil_r.
  - set (e := newEntry_entry lg env (core w) level message) in H.
    exists e. unfold e at 1 2, newEntry_entry.
    split; [destruct (0 <? _); reflexivity|]. split; [destruct (0 <? _); reflexivity|].
    destruct (SyncMode (core w)) eqn:Hs.
    + injection H as <-. left. exists []. simpl. now rewrite app_nil_r.
    + right. split; [reflexivity|]. unfold enqueue in H.
      pose proof (chan_send_frame _ _ _ _ H) as (Hc & _ & _).
      apply chan_send_spec in H as (i & Hi & Hq).
      split; [rewrite Hc; reflexivity|].
      exists i. split; [exact Hi|]. exact Hq.
Qed.

(** A dispatcher holding an entry hands it to every target. *)
Lemma gor_step_processes (j : nat) (e : Entry) (w : World) :
  gors w !! j = Some (GHave (Some e)) ->
  exists w', gor_step j w = Some w' /\
    trace w' = trace w ++ map (fun t => EvProcess t (Some e)) (Targets (core w)).
Proof. intros H. unfold gor_step. rewrite H. eexists. split; reflexivity. Qed.

(** ** [LoggerWriter.Write] *)

Lemma Write_message (p : list Byte.byte) :
  p <> [] ->
  exists b, p !! Z.to_nat (Z.of_nat (length p) - 1) = Some b /\
    (if Byte.eqb b newline_byte
     then string_of_list_byte (take (Z.to_nat (Z.of_nat (length p) - 1)) p)
     else string_of_list_byte p) = string_of_list_byte (strip_trailing_newline p).
Proof.
  intros Hne. destruct p as [|b0 p0] using rev_ind; [congruence|]. clear IHp0.
  exists b0. rewrite length_app. simpl.
  replace (Z.to_nat (Z.of_nat (length p0 + 1) - 1)) with (length p0) by lia.
  split; [apply list_lookup_middle; reflexivity|].
  unfold strip_trailing_newline. rewrite rev_app_distr. simpl.
  rewrite rev_involutive. destruct (Byte.eqb b0 newline_byte); [|reflexivity].
  now rewrite take_app_length.
Qed.

Lemma newEntry_nonfatal_caller (lg : Logger) (env : Env) (level : Level) (message : string)
    (w w' : World) :
  level <> LevelFatal -> newEntry lg env level message w = Some w' -> caller w' = caller w.
Proof.
  intros Hl. unfold newEntry.
  replace (level =? LevelFatal) with false by (symmetry; apply Z.eqb_neq; exact Hl).
  destruct (SyncMode (core w)).
  - intros [= <-]. reflexivity.
  - unfold enqueue. intros H. apply chan_send_frame in H as (_ & _ & ->). reflexivity.
Qed.

Lemma newFatalEntry_caller (lg : Logger) (env : Env) (message : string) (w w' : World) :
  newEntry lg env LevelFatal message w = Some w' -> caller w' = CFatalWait lg env.
Proof.
  unfold newEntry, newFatalEntry. simpl.
  destruct (SyncMode _); [intros [= <-]; reflexivity|].
  destruct (enqueue _ _); [intros [= <-]; reflexivity|discriminate].
Qed.

(** C10 (amended): for a non-empty [p] the index is in range and the
    message is [p] minus one trailing newline; a non-Fatal writer hands it
    to [newEntry] (no level or open gate) and returns [(len p, nil)] once
    [newEntry] returns; a Fatal writer is left in the fatal polling loop
    instead of returning; on the empty slice [Write] panics. *)
Theorem Write_nonempty (lw : LoggerWriter) (env : Env) (p : list Byte.byte) (w : World)
    (Hp : p <> []) (Hidle : caller w = CIdle) :
  let s := string_of_list_byte (strip_trailing_newline p) in
  Write lw env p w <> WriteIndexPanic /\
  (wLevel lw <> LevelFatal ->
     Write lw env p w =
       match newEntry (wLogger lw) env (wLevel lw) s w with
       | Some w' => WriteReturned (Z.of_nat (length p)) None w'
       | None => WriteBlocked
       end) /\
  (wLevel lw = LevelFatal ->
     Write lw env p w =
       match newEntry (wLogger lw) env (wLevel lw) s w with
       | Some w' => WriteInFatalLoop w'
       | None => WriteBlocked
       end) /\
  Write lw env [] w = WriteIndexPanic.
Proof.
  intros s.
  assert (Hw : Write lw env p w =
       match newEntry (wLogger lw) env (wLevel lw) s w with
       | Some w' => match caller w' with
                    | CFatalWait _ _ => WriteInFatalLoop w'
                    | _ => WriteReturned (Z.of_nat (length p)) None w'
                    end
       | None => WriteBlocked
       end).
  { destruct (Write_message p Hp) as (b & Hb & Hs).
    unfold Write. replace (Z.of_nat (length p) - 1 <? 0) with false
      by (symmetry; apply Z.ltb_ge; destruct p; [congruence|simpl; lia]).
    rewrite Hb, Hs. reflexivity. }
  split; [|split; [|split]].
  - rewrite Hw. destruct (newEntry _ _ _ _ _) as [w1|]; [destruct (caller w1)|]; congruence.
  - intros Hl. rewrite Hw.
    destruct (newEntry _ _ _ _ _) as [w'|] eqn:He; [|reflexivity].
    rewrite (newEntry_nonfatal_caller _ _ _ _ _ _ Hl He), Hidle. reflexivity.
  - intros Hl. rewrite Hw. rewrite Hl in *.
    destruct (newEntry _ _ _ _ _) as [w'|] eqn:He; [|reflexivity].
    now rewrite (newFatalEntry_caller _ _ _ _ _ He).
  - reflexivity.
Qed.

Lemma Write_nonempty_witness :
  Write (mkLoggerWriter LevelInfo app) env0 [Byte.x61; newline_byte] w0 =
    match newEntry app env0 LevelInfo "a" w0 with
    | Some w' => WriteReturned 2 None w'
    | None => WriteBlocked
    end.
Proof.
  destruct (Write_nonempty (mkLoggerWriter LevelInfo app) env0 [Byte.x61; newline_byte] w0
              ltac:(discriminate) ltac:(reflexivity)) as (_ & H & _).
  exact (H ltac:(discriminate)).
Defined.

(** C10 as stated fails: a Fatal-level writer on an engine whose fatal
    action is Panic does not return [(len p, nil)]; its caller panics. *)
Lemma Write_fatal_writer_panics :
  let w1 := set_core w0 (set_fatalAction (set_SyncMode (core w0) true) ActionPanic) in
  exists w', Write (mkLoggerWriter LevelFatal app) env0 [Byte.x61] w1 = WriteInFatalLoop w' /\
    caller (fatal_poll 0 w') = CPanicked "Fatal error." /\
    In (EvPanic "Fatal error.") (trace (fatal_poll 0 w')).
Proof.
  eexists. split; [vm_compute; reflexivity|]. vm_compute. split; [reflexivity|].
  right. right. right. left. reflexivity.
Qed.

(** ** Draining: [Close] and the Fatal polling loop *)

(** C2 fails on the code: with the default buffer of 1024, [Close] returns
    as soon as the nil sentinel sits in the channel, behind the entry
    logged before it, and closes the targets at once; the dispatcher
    hands that entry to the target after the target's [Close]. *)
Theorem Close_does_not_wait_for_queue :
  let a := newEntry_entry app env0 (core w0) LevelInfo "a" in
  exists w1, run [SGor 0; SCall (OpLog app env0 LevelInfo "a"); SCall OpClose] w0 = Some w1 /\
    open (core w1) = false /\ caller w1 = CIdle /\
    trace w1 = trace w0 ++ [EvTargetClose console] /\
    chans w1 !! 0%nat = Some (mkChan 1024 [Some a; None]) /\
    exists w2, run [SGor 0; SGor 0] w1 = Some w2 /\
      trace w2 = trace w0 ++ [EvTargetClose console; EvProcess console (Some a)].
Proof.
  intros a. eexists. split; [vm_compute; reflexivity|].
  split; [reflexivity|]. split; [reflexivity|]. split; [reflexivity|].
  split; [reflexivity|]. eexists. split; [vm_compute; reflexivity|]. vm_compute; reflexivity.
Qed.

Lemma not_processed_message (msg : string) (tr : list Event) :
  processed_message msg tr = false ->
  forall t e, In (EvProcess t (Some e)) tr -> eMessage e <> msg.
Proof.
  intros Hp t e Hin Hm. apply not_true_iff_false in Hp. apply Hp.
  apply existsb_exists. exists (EvProcess t (Some e)). split; [exact Hin|].
  simpl. now apply String.eqb_eq.
Qed.

(** C1 fails on the code: after two [AddTarget] cycles [goroutines] is -2,
    so right after [Info("a")] and [Fatal("boom")] it reads 0 and the
    polling loop takes the Exit action at once; "a" was never handed to
    any target, and after [os.Exit] nothing runs any more. *)
Theorem fatal_action_before_prior_entry :
  exists w, run drift_schedule w0 = Some w /\
    caller w = CExited /\ In (EvExit (-1)) (trace w) /\
    (forall t e, In (EvProcess t (Some e)) (trace w) -> eMessage e <> "a") /\
    (forall s, sched_step s w = None).
Proof.
  exists (match run drift_schedule w0 with Some w => w | None => w0 end).
  split; [vm_compute; reflexivity|].
  split; [vm_compute; reflexivity|].
  split; [vm_compute; repeat (first [left; reflexivity | right])|].
  split.
  - apply not_processed_message. vm_compute. reflexivity.
  - intros sc. vm_compute. reflexivity.
Qed.

(** ** Entries left in an abandoned channel *)

Lemma no_recv_insert (k i : nat) (y : Gor) (gs : list Gor) :
  (forall j, gs !! j <> Some (GRecv k)) -> y <> GRecv k ->
  forall j, <[i := y]> gs !! j <> Some (GRecv k).
Proof.
  intros H Hy j Hj. apply list_lookup_insert_Some in Hj as [(_ & -> & _)|(_ & Hj)].
  - exact (Hy eq_refl).
  - exact (H j Hj).
Qed.

Lemma abandoned_core (k : nat) (C : Chan) (w : World) (c : coreLogger) :
  abandoned k C w -> entries c = entries (core w) -> abandoned k C (set_core w c).
Proof. intros (H1 & H2 & H3) He. split; [exact H1|]. split; [simpl; congruence|exact H3]. Qed.

Lemma abandoned_trace (k : nat) (C : Chan) (w : World) (evs : list Event) :
  abandoned k C w -> abandoned k C (add_trace w evs).
Proof. intros H. exact H. Qed.

Lemma abandoned_caller (k : nat) (C : Chan) (w : World) (cl : Caller) :
  abandoned k C w -> abandoned k C (set_caller w cl).
Proof. intros H. exact H. Qed.

Lemma abandoned_syncProcess (k : nat) (C : Chan) (w : World) (x : option Entry) :
  abandoned k C w -> abandoned k C (syncProcess x w).
Proof. destruct x; [apply abandoned_trace|exact id]. Qed.

Lemma abandoned_chan_send (k : nat) (C : Chan) (ch : option nat) (x : option Entry)
    (w w' : World) :
  abandoned k C w -> ch <> Some k -> chan_send ch x w = Some w' -> abandoned k C w'.
Proof.
  intros (H1 & H2 & H3) Hch. unfold chan_send.
  destruct ch as [i|]; [|discriminate].
  destruct (chans w !! i) as [c|]; [|discriminate].
  destruct (_ <? _).
  - intros [= <-]. split; [|split; [exact H2|exact H3]]. simpl.
    rewrite list_lookup_insert_ne by congruence. exact H1.
  - destruct (buf c); [|discriminate].
    destruct (find_receiver i (gors w) 0); [|discriminate]. intros [= <-].
    split; [exact H1|]. split; [exact H2|]. simpl.
    apply no_recv_insert; [exact H3|discriminate].
Qed.

Lemma abandoned_Open (k : nat) (C : Chan) (w : World) :
  abandoned k C w -> abandoned k C (fst (Open w)).
Proof.
  intros Hab. pose proof Hab as (H1 & H2 & H3). unfold Open.
  destruct (open (core w)); [exact Hab|].
  destruct (negb (ErrorWriter (core w))); [exact Hab|].
  destruct (BufferSize (core w) <? 0); [exact Hab|].
  destruct (CallStackDepth (core w) <? 0); [exact Hab|].
  destruct (open_targets (Targets (core w))) as [evs kept]. unfold abandoned.
  cbn [fst chans gors core entries set_open set_Targets set_entries].
  assert (Hk : (k < length (chans w))%nat) by (apply lookup_lt_is_Some; eauto).
  split; [rewrite lookup_app_l by exact Hk; exact H1|].
  split; [intros [= E]; lia|].
  intros j Hj. rewrite lookup_app in Hj.
  destruct (gors w !! j) eqn:Hg; [injection Hj as ->; exact (H3 j Hg)|].
  destruct (j - length (gors w))%nat as [|m]; simpl in Hj; [discriminate|].
  rewrite lookup_nil in Hj. discriminate.
Qed.

Lemma abandoned_Close (k : nat) (C : Chan) (w w' : World) :
  abandoned k C w -> Close w = Some w' -> abandoned k C w'.
Proof.
  intros Hab. unfold Close. destruct (negb (open (core w))); [intros [= <-]; exact Hab|].
  destruct (chan_send _ None _) as [w2|] eqn:Hs; [|discriminate]. intros [= <-].
  apply abandoned_trace.
  apply (abandoned_chan_send k C (entries (core w)) None _ _
           (abandoned_core k C w (set_open (core w) false) Hab eq_refl));
    [exact (proj1 (proj2 Hab))|exact Hs].
Qed.

Lemma abandoned_enqueue (k : nat) (C : Chan) (e : Entry) (w w' : World) :
  abandoned k C w -> enqueue e w = Some w' -> abandoned k C w'.
Proof.
  intros Hab. unfold enqueue.
  apply abandoned_chan_send; [apply abandoned_core; [exact Hab|reflexivity]|].
  exact (proj1 (proj2 Hab)).
Qed.

Lemma abandoned_newEntry (k : nat) (C : Chan) (lg : Logger) (env : Env) (level : Level)
    (message : string) (w w' : World) :
  abandoned k C w -> newEntry lg env level message w = Some w' -> abandoned k C w'.
Proof.
  intros Hab. unfold newEntry. destruct (level =? LevelFatal).
  - unfold newFatalEntry. cbv zeta.
    set (w1 := syncProcess (Some (newFatalEntry_entry lg env (core w) level message)) w).
    assert (H1 : abandoned k C w1) by (apply abandoned_syncProcess; exact Hab).
    clearbody w1. destruct (SyncMode (core w1)).
    + intros [= <-]. apply abandoned_caller, abandoned_trace. exact H1.
    + destruct (enqueue _ _) as [w3|] eqn:He; [|discriminate]. intros [= <-].
      apply abandoned_caller. exact (abandoned_enqueue k C _ _ _ H1 He).
  - destruct (SyncMode (core w)).
    + intros [= <-]. apply abandoned_trace. exact Hab.
    + apply abandoned_enqueue. exact Hab.
Qed.

Lemma Write_newEntry (lw : LoggerWriter) (env : Env) (p : list Byte.byte) (w w' : World) :
  (Write lw env p w = WriteInFatalLoop w' \/ exists n err, Write lw env p w = WriteReturned n err w') ->
  exists s, newEntry (wLogger lw) env (wLevel lw) s w = Some w'.
Proof.
  unfold Write. destruct (_ <? 0); [intros [H|(? & ? & H)]; discriminate H|].
  destruct (p !! _) as [b|]; [|intros [H|(? & ? & H)]; discriminate H].
  destruct (newEntry _ _ _ _ w) as [w1|] eqn:He; [|intros [H|(? & ? & H)]; discriminate H].
  destruct (caller w1); intros [H|(? & ? & H)]; inversion H; subst; eauto.
Qed.

Lemma abandoned_call (k : nat) (C : Chan) (o : Op) (w w' : World) :
  abandoned k C w -> call o w = Some w' -> abandoned k C w'.
Proof.
  intros Hab. destruct o as [| |lg env level message|ts|ts|b|a|lw env p]; simpl.
  - intros [= <-]. apply abandoned_Open. exact Hab.
  - apply abandoned_Close. exact Hab.
  - unfold Log. destruct (_ || _)%bool; [intros [= <-]; exact Hab|].
    apply abandoned_newEntry. exact Hab.
  - unfold SetTarget. destruct (Close w) as [w1|] eqn:Hc; [|discriminate].
    pose proof (abandoned_Close k C w w1 Hab Hc) as H1.
    destruct ts; intros [= <-].
    + apply abandoned_core; [exact H1|reflexivity].
    + apply abandoned_Open, abandoned_core; [exact H1|reflexivity].
  - unfold AddTarget. destruct (Close w) as [w1|] eqn:Hc; [|discriminate].
    pose proof (abandoned_Close k C w w1 Hab Hc) as H1. intros [= <-].
    apply abandoned_Open, abandoned_core; [exact H1|reflexivity].
  - intros [= <-]. apply abandoned_core; [exact Hab|reflexivity].
  - intros [= <-]. apply abandoned_core; [exact Hab|reflexivity].
  - destruct (Write lw env p w) as [| |w1|n err w1] eqn:Hw.
    + intros [= <-]. apply abandoned_caller. exact Hab.
    + discriminate.
    + intros [= <-]. destruct (Write_newEntry lw env p w w1 (or_introl Hw)) as [s' Hs].
      exact (abandoned_newEntry k C _ _ _ _ _ _ Hab Hs).
    + intros [= <-]. destruct (Write_newEntry lw env p w w1 (or_intror (ex_intro _ n (ex_intro _ err Hw))))
        as [s' Hs].
      exact (abandoned_newEntry k C _ _ _ _ _ _ Hab Hs).
Qed.

Lemma abandoned_fatal_poll (k : nat) (C : Chan) (now' : Z) (w : World) :
  abandoned k C w -> abandoned k C (fatal_poll now' w).
Proof.
  intros Hab. unfold fatal_poll. destruct (caller w); try exact Hab.
  destruct (_ <=? 0); [|exact Hab].
  destruct (fatalAction (core w)).
  - apply abandoned_caller. exact Hab.
  - apply abandoned_caller, abandoned_trace. exact Hab.
  - apply abandoned_caller, abandoned_trace, abandoned_syncProcess. exact Hab.
Qed.

Lemma abandoned_gor_step (k : nat) (C : Chan) (j : nat) (w w' : World) :
  abandoned k C w -> gor_step j w = Some w' -> abandoned k C w'.
Proof.
  intros Hab. pose proof Hab as (H1 & H2 & H3). unfold gor_step.
  destruct (gors w !! j) as [[|c|x|]|] eqn:Hg; try discriminate.
  - destruct (entries (core w)) as [c|] eqn:He; [|discriminate]. intros [= <-].
    split; [exact H1|]. split; [simpl; congruence|]. simpl.
    apply no_recv_insert; [exact H3|]. intros [= Ec]. congruence.
  - destruct (chans w !! c) as [[cp [|x rest]]|] eqn:Hc; try discriminate. intros [= <-].
    assert (Hck : c <> k) by (intros ->; exact (H3 j Hg)).
    split; [simpl; rewrite list_lookup_insert_ne by congruence; exact H1|].
    split; [exact H2|]. simpl. apply no_recv_insert; [exact H3|discriminate].
  - intros [= <-]. split; [exact H1|]. split; [exact H2|]. simpl.
    apply no_recv_insert; [exact H3|destruct x; discriminate].
Qed.

Lemma abandoned_run (k : nat) (C : Chan) (ss : list Sched) (w w' : World) :
  abandoned k C w -> run ss w = Some w' -> abandoned k C w'.
Proof.
  revert w. induction ss as [|sc ss IH]; intros w Hab; simpl; [intros [= <-]; exact Hab|].
  destruct (sched_step sc w) as [w1|] eqn:Hs; [|discriminate].
  apply IH. unfold sched_step in Hs.
  destruct (caller w), sc; try discriminate;
    first [ exact (abandoned_call _ _ _ _ _ Hab Hs)
          | exact (abandoned_gor_step _ _ _ _ _ Hab Hs)
          | (injection Hs as <-; apply abandoned_fatal_poll; exact Hab) ].
Qed.

(** C3 fails on the code: [Info("a")] and [Info("b")] both pass the gate
    on the open engine, but after [AddTarget(t2)] the old dispatcher
    finishes "a", re-reads [l.entries] and serves the new channel.  "b"
    stays in the old channel, ahead of the nil sentinel, with no
    dispatcher able to receive it, whatever runs next: it is never
    delivered. *)
Theorem Log_entry_stranded :
  LevelInfo <= MaxLevel (core w0) /\ open (core w0) = true /\
  exists w, run lost_schedule w0 = Some w /\
    processed_message "a" (trace w) = true /\
    processed_message "b" (trace w) = false /\
    open (core w) = true /\ Targets (core w) = [console; t2] /\
    forall ss w', run ss w = Some w' ->
      chans w' !! 0%nat =
        Some (mkChan 1024 [Some (newEntry_entry app env0 (core w0) LevelInfo "b"); None]) /\
      entries (core w') <> Some 0%nat /\ (forall j, gors w' !! j <> Some (GRecv 0%nat)).
Proof.
  split; [vm_compute; discriminate|]. split; [reflexivity|].
  destruct (run lost_schedule w0) as [wq|] eqn:Hq; [|vm_compute in Hq; discriminate].
  exists wq. split; [reflexivity|].
  vm_compute in Hq. injection Hq as <-.
  do 4 (split; [reflexivity|]).
  intros ss w' Hr.
  refine (abandoned_run 0 (mkChan 1024 [Some (newEntry_entry app env0 (core w0) LevelInfo "b"); None])
            ss _ w' _ Hr).
  split; [vm_compute; reflexivity|]. split; [discriminate|].
  intros j. destruct j as [|[|j]]; vm_compute; congruence.
Qed.

(** C4 fails on the code: in async mode, on the run of C1, the Fatal
    entry "boom" is processed once by each of the three targets (the
    synchronous pass) and the process exits before the dispatcher path
    processes it a second time; after [os.Exit] nothing runs. *)
Theorem Fatal_processed_once_before_exit :
  SyncMode (core w0) = false /\
  exists w, run drift_schedule w0 = Some w /\
    Targets (core w) = [console; t2; t3] /\
    count_processed console "boom" (trace w) = 1%nat /\
    count_processed t2 "boom" (trace w) = 1%nat /\
    count_processed t3 "boom" (trace w) = 1%nat /\
    caller w = CExited /\ (forall s, sched_step s w = None).
Proof.
  split; [reflexivity|].
  exists (match run drift_schedule w0 with Some w => w | None => w0 end).
  split; [vm_compute; reflexivity|].
  do 5 (split; [vm_compute; reflexivity|]).
  intros sc. vm_compute. reflexivity.
Qed.

End Claims.


(** * Further properties of logger.go *)
Module Extras.
Import GoLog SpecTerms Scenario.

(** ** Level names *)

Ltac unfold_levels :=
  unfold LevelFatal, LevelError, LevelWarn, LevelInfo, LevelDebug in *.

Lemma Levels_found (name : string) (l : Level) :
  Levels name = (l, true) -> 0 <= l <= 4 /\ Level_String l = name.
Proof.
  unfold Levels.
  destruct (String.eqb_spec name "Debug") as [->|_]; [intros [= <-]; split; [unfold_levels; lia|reflexivity]|].
  destruct (String.eqb_spec name "Info") as [->|_]; [intros [= <-]; split; [unfold_levels; lia|reflexivity]|].
  destruct (String.eqb_spec name "Warn") as [->|_]; [intros [= <-]; split; [unfold_levels; lia|reflexivity]|].
  destruct (String.eqb_spec name "Error") as [->|_]; [intros [= <-]; split; [unfold_levels; lia|reflexivity]|].
  destruct (String.eqb_spec name "Fatal") as [->|_]; [intros [= <-]; split; [unfold_levels; lia|reflexivity]|].
  intros [=].
Qed.

Lemma Level_String_found (l : Level) :
  0 <= l <= 4 -> Levels (Level_String l) = (l, true) /\ GetLevel (Level_String l) = (l, true).
Proof.
  intros Hl. assert (l = 0 \/ l = 1 \/ l = 2 \/ l = 3 \/ l = 4) as Hc by lia.
  destruct Hc as [->|[->|[->|[->| ->]]]]; split; reflexivity.
Qed.

(** [Level.String] and [GetLevel] are inverse on the five levels: the name
    of a level is found again by [Levels] and by [GetLevel]; any other
    level prints as "Unknown", which [GetLevel] rejects; and every name
    [Levels] knows is the [String] of the level it maps to. *)
Theorem Level_String_roundtrip (l : Level) :
  (0 <= l <= 4 -> Levels (Level_String l) = (l, true) /\ GetLevel (Level_String l) = (l, true)) /\
  (l < 0 \/ 4 < l -> Level_String l = "Unknown" /\ GetLevel (Level_String l) = (0, false)) /\
  (forall name, Levels name = (l, true) -> Level_String l = name).
Proof.
  split; [|split].
  - exact (Level_String_found l).
  - intros Hl. assert (HS : Level_String l = "Unknown").
    { unfold Level_String, LevelNames. unfold_levels.
      repeat (rewrite (proj2 (Z.eqb_neq _ _)) by lia). reflexivity. }
    rewrite HS. split; reflexivity.
  - intros name H. exact (proj2 (Levels_found name l H)).
Qed.

Lemma Level_String_roundtrip_witness :
  GetLevel (Level_String LevelInfo) = (LevelInfo, true) /\ Level_String 7 = "Unknown".
Proof.
  split.
  - exact (proj2 (proj1 (Level_String_roundtrip LevelInfo) ltac:(unfold_levels; lia))).
  - exact (proj1 (proj1 (proj2 (Level_String_roundtrip 7)) ltac:(lia))).
Defined.

(** ** [SetLevel] *)

Lemma SetLevel_cases (s : string) (w : World) :
  (SetLevel s w = w /\ snd (GetLevel s) = false) \/
  (exists l, GetLevel s = (l, true) /\ 0 <= l <= 4 /\ Level_String l = Title s /\
     SetLevel s w = set_core w (set_MaxLevel (core w) l)).
Proof.
  unfold SetLevel, GetLevel. destruct (Levels (Title s)) as [l []] eqn:H.
  - right. exists l. destruct (Levels_found _ _ H). auto.
  - left. auto.
Qed.

(** [SetLevel] either leaves the engine as it is (an unknown name, such as
    "DEBUG") or sets [MaxLevel], and nothing else, to a level between Fatal
    and Debug whose name is [strings.Title] of the argument; the name of a
    level sets that level. *)
Theorem SetLevel_spec (s : string) (w : World) :
  ((SetLevel s w = w /\ snd (GetLevel s) = false) \/
   (exists l, 0 <= l <= 4 /\ Level_String l = Title s /\
      SetLevel s w = set_core w (set_MaxLevel (core w) l))) /\
  (forall l, 0 <= l <= 4 -> SetLevel (Level_String l) w = set_core w (set_MaxLevel (core w) l)).
Proof.
  split.
  - destruct (SetLevel_cases s w) as [H|(l & _ & H)]; [now left|right; eauto].
  - intros l Hl. unfold SetLevel. now rewrite (proj2 (Level_String_found l Hl)).
Qed.

Lemma SetLevel_spec_witness :
  SetLevel (Level_String LevelWarn) w0 = set_core w0 (set_MaxLevel (core w0) LevelWarn).
Proof. exact (proj2 (SetLevel_spec "" w0) LevelWarn ltac:(unfold_levels; lia)). Defined.

(** After [SetLevel] with the name of level [l], a [Log] call above [l] is
    dropped and a call at or below [l] on an open engine goes on to
    [newEntry]; and no [SetLevel] can silence [Fatal]: as long as
    [MaxLevel] was not negative, a Fatal call on an open engine always
    reaches [newEntry]. *)
Theorem SetLevel_gates_Log (l : Level) (w : World) (lg : Logger) (env : Env)
    (level : Level) (message : string) (Hl : 0 <= l <= 4) :
  (l < level ->
     Log lg env level message (SetLevel (Level_String l) w) = Some (SetLevel (Level_String l) w)) /\
  (level <= l -> open (core w) = true ->
     Log lg env level message (SetLevel (Level_String l) w) =
       newEntry lg env level message (SetLevel (Level_String l) w)) /\
  (0 <= MaxLevel (core w) -> open (core w) = true -> forall s,
     Fatal lg env message (SetLevel s w) = newEntry lg env LevelFatal message (SetLevel s w)).
Proof.
  unfold SetLevel. rewrite (proj2 (Level_String_found l Hl)).
  split; [|split].
  - intros Hlt. unfold Log. simpl. now rewrite (proj2 (Z.ltb_lt _ _) Hlt).
  - intros Hle Ho. unfold Log. simpl. rewrite (proj2 (Z.ltb_ge _ _) Hle), Ho. reflexivity.
  - intros Hm Ho s. unfold Fatal, Log, GetLevel.
    destruct (Levels (Title s)) as [l' []] eqn:H; simpl.
    + destruct (Levels_found _ _ H) as [Hl' _].
      rewrite (proj2 (Z.ltb_ge _ _)) by (unfold_levels; lia). now rewrite Ho.
    + rewrite (proj2 (Z.ltb_ge _ _)) by (unfold_levels; lia). now rewrite Ho.
Qed.

Lemma SetLevel_gates_Log_witness :
  Log app env0 LevelDebug "d" (SetLevel (Level_String LevelInfo) w0) =
    Some (SetLevel (Level_String LevelInfo) w0).
Proof.
  exact (proj1 (SetLevel_gates_Log LevelInfo w0 app env0 LevelDebug "d"
                  ltac:(unfold_levels; lia)) ltac:(unfold_levels; lia)).
Defined.

(** ** [New] and [NewLogger] *)

(** [New(args...)] returns an open engine with the documented defaults
    (BufferSize 1024, MaxLevel Debug, async mode, fatal action Nothing, no
    call stack), one fresh empty channel of capacity 1024 and one
    dispatcher, and a facade of category [args[0]] (or "app") formatted by
    [NormalFormatter].  The console target is kept if its [Open] succeeds;
    if it fails, the logger is still open, with no target, and the failure
    is written to [ErrorWriter]. *)
Theorem New_defaults (TimeFormat : Z -> string -> string) (console : Target)
    (args : list string) :
  let w := fst (New TimeFormat console args) in
  let lg := snd (New TimeFormat console args) in
  Category lg = match args with [] => "app" | a :: _ => a end /\
  LFormatter lg = NormalFormatter TimeFormat /\
  open (core w) = true /\ MaxLevel (core w) = LevelDebug /\
  BufferSize (core w) = 1024 /\ SyncMode (core w) = false /\
  fatalAction (core w) = ActionNothing /\ CallStackDepth (core w) = 0 /\
  goroutines (core w) = 0 /\ entries (core w) = Some 0%nat /\
  chans w = [mkChan 1024 []] /\ gors w = [GStart] /\ caller w = CIdle /\
  (tOpenErr console = None -> Targets (core w) = [console] /\ trace w = [EvTargetOpen console]) /\
  (forall err, tOpenErr console = Some err ->
     Targets (core w) = [] /\
     trace w = [EvTargetOpen console;
                EvErrWrite (String.append "Failed to open target: "
                              (String.append err (String (ascii_of_nat 10) EmptyString)))]).
Proof.
  cbv zeta. unfold New, NewLogger, Open. simpl.
  destruct (tOpenErr console) as [err|] eqn:Hc; simpl;
    (split; [destruct args; reflexivity|]);
    repeat (split; [reflexivity|]).
  - split; [discriminate|]. intros err0 [= <-]. split; reflexivity.
  - split; [intros _; split; reflexivity|]. discriminate.
Qed.

Lemma New_defaults_witness :
  Targets (core (fst (New layout_only console []))) = [console].
Proof.
  destruct (New_defaults layout_only console [])
    as (_ & _ & _ & _ & _ & _ & _ & _ & _ & _ & _ & _ & _ & H & _).
  exact (proj1 (H eq_refl)).
Defined.

(** ** [GetLogger] and the formatters *)

Lemma cut_bar_app (a b : string) :
  cut_bar a = None -> cut_bar (a ++ "|" ++ b)%string = Some (a, b).
Proof.
  induction a as [|c a IH]; simpl; [reflexivity|].
  destruct (Ascii.eqb c "|"%char); [discriminate|].
  destruct (cut_bar a) as [[x y]|]; [discriminate|]. intros _. now rewrite IH.
Qed.

Lemma Level_String_no_bar (l : Level) : cut_bar (Level_String l) = None.
Proof.
  unfold Level_String, LevelNames.
  repeat (destruct (_ =? _)); reflexivity.
Qed.

Lemma format_with_line (TimeFormat : Z -> string -> string) (layout : string) (e : Entry) :
  cut_bar (TimeFormat (eTime e) layout) = None -> cut_bar (eCategory e) = None ->
  parse_line (format_with TimeFormat layout e) =
    Some (TimeFormat (eTime e) layout, Level_String (eLevel e), eCategory e,
          (eMessage e ++ eCallStack e)%string).
Proof.
  intros Ht Hc. unfold format_with, parse_line.
  rewrite (cut_bar_app _ _ Ht), (cut_bar_app _ _ (Level_String_no_bar _)),
    (cut_bar_app _ _ Hc). reflexivity.
Qed.

(** A logger obtained by [GetLogger(category)] with no formatter stamps
    its own category on its entries and formats them with its parent's
    formatter; with [DefaultFormatter] or [NormalFormatter] (both
    [format_with] a layout) each line of a Fatal or non-Fatal entry reads
    back, field by field, as the time, the level name, the category and
    the message followed by the call stack, provided the rendered time
    and the category contain no ['|']. *)
Theorem GetLogger_line (TimeFormat : Z -> string -> string) (layout : string)
    (parent : Logger) (category : string) (env : Env) (c : coreLogger)
    (level : Level) (message : string)
    (Hf : LFormatter parent = format_with TimeFormat layout)
    (Ht : cut_bar (TimeFormat (now env) layout) = None)
    (Hc : cut_bar category = None) :
  let lg := GetLogger parent category [] in
  let e := newEntry_entry lg env c level message in
  let fe := newFatalEntry_entry lg env c level message in
  eCategory e = category /\
  parse_line (eFormattedMessage e) =
    Some (TimeFormat (now env) layout, Level_String level, category,
          (message ++ eCallStack e)%string) /\
  eCategory fe = category /\
  parse_line (eFormattedMessage fe) =
    Some (TimeFormat (now env) layout, Level_String level, category,
          (message ++ eCallStack fe)%string).
Proof.
  cbv zeta. unfold newEntry_entry, newFatalEntry_entry, GetLogger. simpl. rewrite Hf.
  split; [destruct (0 <? _); reflexivity|]. split.
  - destruct (0 <? _); simpl; apply format_with_line; assumption.
  - split; [reflexivity|]. simpl. apply format_with_line; assumption.
Qed.

Lemma GetLogger_line_witness :
  parse_line (eFormattedMessage
    (newEntry_entry (GetLogger (mkLogger "app" (NormalFormatter layout_only)) "db" [])
       env0 (core w0) LevelInfo "up")) =
  Some ("2006-01-02 15:04:05", "Info", "db", "up").
Proof.
  exact (proj1 (proj2 (GetLogger_line layout_only "2006-01-02 15:04:05"
           (mkLogger "app" (NormalFormatter layout_only)) "db" env0 (core w0) LevelInfo "up"
           eq_refl ltac:(vm_compute; reflexivity) ltac:(vm_compute; reflexivity)))).
Defined.

(** ** [Sync] *)

(** [Sync()] turns sync mode on and [Sync(b)] sets it to [b].  In sync
    mode a non-Fatal [Log] call that passes the gate only appends the
    processing of the entry by every target to the trace: no channel, no
    dispatcher and no counter is touched; back in async mode the same call
    counts the entry and sends it on the channel. *)
Theorem Sync_mode (args : list bool) (w : World) (lg : Logger) (env : Env)
    (level : Level) (message : string) :
  SyncMode (core (Sync args w)) = match args with [] => true | b :: _ => b end /\
  (level <> LevelFatal -> level <= MaxLevel (core w) -> open (core w) = true ->
     let e := newEntry_entry lg env (core w) level message in
     Log lg env level message (Sync [] w) =
       Some (add_trace (Sync [] w) (map (fun t => EvProcess t (Some e)) (Targets (core w)))) /\
     Log lg env level message (Sync [false] w) = enqueue e (Sync [false] w)).
Proof.
  split; [destruct args; reflexivity|].
  intros Hl Hm Ho. cbv zeta. unfold Log, newEntry. simpl.
  rewrite (proj2 (Z.ltb_ge _ _) Hm), Ho, (proj2 (Z.eqb_neq _ _) Hl). simpl.
  split; reflexivity.
Qed.

Lemma Sync_mode_witness :
  Log app env0 LevelInfo "a" (Sync [] w0) =
    Some (add_trace (Sync [] w0)
      (map (fun t => EvProcess t (Some (newEntry_entry app env0 (core w0) LevelInfo "a")))
         (Targets (core w0)))).
Proof.
  exact (proj1 (proj2 (Sync_mode [] w0 app env0 LevelInfo "a")
           ltac:(unfold_levels; lia) ltac:(vm_compute; discriminate) eq_refl)).
Defined.

(** ** [GetCallStack] *)

Definition frame_passes (filter : string) (f : Frame) : bool :=
  (String.eqb filter "" || Contains (fst f) filter)%bool.

Lemma callstack_loop_take (l : list Frame) (count frames : Z) (filter : string) :
  callstack_loop l count frames filter =
  take (Z.to_nat (frames - count)) (List.filter (frame_passes filter) l).
Proof.
  revert count. induction l as [|[file line] rest IH]; intros count.
  - simpl. destruct (count <? frames); now rewrite take_nil.
  - cbn [callstack_loop].
    change (List.filter (frame_passes filter) ((file, line) :: rest)) with
      (if frame_passes filter (file, line)
       then (file, line) :: List.filter (frame_passes filter) rest
       else List.filter (frame_passes filter) rest).
    change ((String.eqb filter "" || Contains file filter)%bool)
      with (frame_passes filter (file, line)).
    destruct (count <? frames) eqn:Hlt.
    + apply Z.ltb_lt in Hlt. destruct (frame_passes filter (file, line)).
      * rewrite IH. replace (Z.to_nat (frames - count)) with (S (Z.to_nat (frames - (count + 1))))
          by lia. reflexivity.
      * apply IH.
    + apply Z.ltb_ge in Hlt. replace (Z.to_nat (frames - count)) with 0%nat by lia.
      reflexivity.
Qed.

Lemma filter_all_true {A} (l : list A) : List.filter (fun _ => true) l = l.
Proof. induction l; simpl; congruence. Qed.

(** [GetCallStack(skip, frames, filter)] renders, as "\nfile:line" lines,
    the first [frames] frames past the [skip] innermost ones whose file
    contains [filter]; with an empty filter, simply the first [frames]
    frames past [skip]. *)
Theorem GetCallStack_frames (stk : list Frame) (skip frames : Z) (filter : string) :
  GetCallStack stk skip frames filter =
    concat_strings (map render_frame
      (take (Z.to_nat frames)
         (List.filter (fun f => String.eqb filter "" || Contains (fst f) filter)%bool
            (drop (Z.to_nat skip) stk)))) /\
  GetCallStack stk skip frames "" =
    concat_strings (map render_frame (take (Z.to_nat frames) (drop (Z.to_nat skip) stk))).
Proof.
  unfold GetCallStack. split.
  - rewrite callstack_loop_take, Z.sub_0_r. reflexivity.
  - rewrite callstack_loop_take, Z.sub_0_r. unfold frame_passes. simpl.
    now rewrite filter_all_true.
Qed.

(** ** [Open], [AddTarget] and [SetTarget]: which targets survive *)

Lemma open_targets_spec (ts : list Target) :
  open_targets ts = (flat_map open_events ts, List.filter opens_ok ts).
Proof.
  induction ts as [|t rest IH]; [reflexivity|]. simpl. rewrite IH.
  unfold open_events, opens_ok. destruct (tOpenErr t); reflexivity.
Qed.

Lemma Open_ok_eq (w : World) :
  open (core w) = false -> ErrorWriter (core w) = true ->
  0 <= BufferSize (core w) -> 0 <= CallStackDepth (core w) ->
  Open w =
    (mkWorld (set_open (set_Targets (set_entries (core w) (Some (length (chans w))))
                          (List.filter opens_ok (Targets (core w)))) true)
       (chans w ++ [mkChan (BufferSize (core w)) []]) (gors w ++ [GStart]) (caller w)
       (trace w ++ flat_map open_events (Targets (core w))), None).
Proof.
  intros Ho He Hb Hd. unfold Open. rewrite Ho, He. simpl.
  rewrite (proj2 (Z.ltb_ge _ _) Hb), (proj2 (Z.ltb_ge _ _) Hd), open_targets_spec.
  reflexivity.
Qed.

(** On a closed engine with a valid configuration, [Open] calls [Open] on
    every target once, in order, writes one "Failed to open target: ..."
    line to [ErrorWriter] right after each failing one, and keeps exactly
    the targets whose [Open] succeeded, in their order. *)
Theorem Open_keeps_opened_targets (w : World)
    (Ho : open (core w) = false) (He : ErrorWriter (core w) = true)
    (Hb : 0 <= BufferSize (core w)) (Hd : 0 <= CallStackDepth (core w)) :
  Targets (core (fst (Open w))) = List.filter opens_ok (Targets (core w)) /\
  trace (fst (Open w)) = trace w ++ flat_map open_events (Targets (core w)) /\
  (forall t, In t (Targets (core (fst (Open w)))) <->
             In t (Targets (core w)) /\ tOpenErr t = None).
Proof.
  rewrite (Open_ok_eq w Ho He Hb Hd). simpl. split; [reflexivity|]. split; [reflexivity|].
  intros t. rewrite filter_In. unfold opens_ok.
  destruct (tOpenErr t); split; intros [H1 H2]; auto; discriminate.
Qed.

Lemma Open_keeps_opened_targets_witness :
  Targets (core (fst (Open (set_core w0 (set_Targets (set_open (core w0) false)
                                             [mkTarget 5 (Some "disk full"); t2])))))
  = [t2].
Proof.
  rewrite (proj1 (Open_keeps_opened_targets
                    (set_core w0 (set_Targets (set_open (core w0) false)
                                    [mkTarget 5 (Some "disk full"); t2]))
                    eq_refl eq_refl
                    ltac:(vm_compute; discriminate) ltac:(vm_compute; discriminate))).
  reflexivity.
Defined.

Lemma Close_open_trace (w w1 : World) :
  open (core w) = true -> Close w = Some w1 ->
  trace w1 = trace w ++ map EvTargetClose (Targets (core w)) /\ caller w1 = caller w.
Proof.
  intros Ho. unfold Close. rewrite Ho. simpl.
  destruct (chan_send _ None _) as [w2|] eqn:Hs; [|discriminate].
  apply Claims.chan_send_frame in Hs as (Hc & Ht & Hk). intros [= <-].
  simpl. rewrite Hc, Ht, Hk. simpl. auto.
Qed.

(** [AddTarget] on an open engine with a valid configuration closes every
    existing target and opens them all again, followed by the new ones;
    the engine keeps those whose [Open] succeeded.  [SetTarget] with a
    non-empty list closes the existing targets and opens only the new
    ones. *)
Theorem AddTarget_SetTarget_reopen (ts : list Target) (w w' : World)
    (Ho : open (core w) = true) (He : ErrorWriter (core w) = true)
    (Hb : 0 <= BufferSize (core w)) (Hd : 0 <= CallStackDepth (core w)) :
  (AddTarget ts w = Some w' ->
     open (core w') = true /\
     Targets (core w') = List.filter opens_ok (Targets (core w) ++ ts) /\
     trace w' = trace w ++ map EvTargetClose (Targets (core w)) ++
                flat_map open_events (Targets (core w) ++ ts)) /\
  (ts <> [] -> SetTarget ts w = Some w' ->
     open (core w') = true /\
     Targets (core w') = List.filter opens_ok ts /\
     trace w' = trace w ++ map EvTargetClose (Targets (core w)) ++ flat_map open_events ts).
Proof.
  split.
  - unfold AddTarget. destruct (Close w) as [w1|] eqn:Hc; [|discriminate]. intros [= <-].
    pose proof (Claims.Close_core w w1 Hc) as Hcore.
    destruct (Close_open_trace w w1 Ho Hc) as [Ht _].
    rewrite Open_ok_eq; simpl; rewrite ?Hcore; simpl; auto.
    rewrite Ht, <- app_assoc. auto.
  - intros Hne. unfold SetTarget. destruct (Close w) as [w1|] eqn:Hc; [|discriminate].
    pose proof (Claims.Close_core w w1 Hc) as Hcore.
    destruct (Close_open_trace w w1 Ho Hc) as [Ht _].
    destruct ts as [|t ts']; [congruence|]. intros [= <-].
    rewrite Open_ok_eq; simpl; rewrite ?Hcore; simpl; auto.
    rewrite Ht, <- app_assoc. auto.
Qed.

Lemma AddTarget_SetTarget_reopen_witness :
  match AddTarget [t2] w0 with
  | Some w' => trace w' = trace w0 ++ [EvTargetClose console; EvTargetOpen console; EvTargetOpen t2]
  | None => False
  end.
Proof.
  destruct (AddTarget [t2] w0) as [w'|] eqn:H; [|vm_compute in H; discriminate].
  destruct (AddTarget_SetTarget_reopen [t2] w0 w' eq_refl eq_refl
              ltac:(vm_compute; discriminate) ltac:(vm_compute; discriminate)) as [HA _].
  destruct (HA H) as (_ & _ & ->). reflexivity.
Defined.

(** ** Logging after [Close] *)

(** Once [Close] has returned, [Log] and [Logf] (and so every level
    method) drop their message and change nothing. *)
Theorem Log_after_Close (w w1 : World) (H : Close w = Some w1)
    (lg : Logger) (env : Env) (level : Level) (message : string)
    (Sprintf : string -> list string -> string) (format : string) (a : list string) :
  Log lg env level message w1 = Some w1 /\ Logf Sprintf lg env level format a w1 = Some w1.
Proof.
  pose proof (Claims.Close_core w w1 H) as Hc.
  unfold Log, Logf. rewrite Hc. simpl. rewrite orb_true_r. split; reflexivity.
Qed.

Lemma Log_after_Close_witness :
  match Close w0 with
  | Some w1 => Fatal app env0 "boom" w1 = Some w1
  | None => False
  end.
Proof.
  destruct (Close w0) as [w1|] eqn:H; [|vm_compute in H; discriminate].
  exact (proj1 (Log_after_Close w0 w1 H app env0 LevelFatal "boom" (fun f _ => f) "" [])).
Defined.

(** [Writer(level).Write(p)] has no open check: in sync mode, after
    [Close] has closed the targets, a non-Fatal write still makes every
    one of those closed targets process the entry, and returns
    [(len p, nil)]. *)
Theorem Write_after_Close_sync (w w1 : World) (lg : Logger) (level : Level) (env : Env)
    (p : list Byte.byte)
    (Ho : open (core w) = true) (Hc : Close w = Some w1) (Hs : SyncMode (core w) = true)
    (Hl : level <> LevelFatal) (Hp : p <> []) (Hi : caller w = CIdle) :
  let e := newEntry_entry lg env (core w1) level
             (string_of_list_byte (strip_trailing_newline p)) in
  trace w1 = trace w ++ map EvTargetClose (Targets (core w)) /\
  Write (Writer lg level) env p w1 =
    WriteReturned (Z.of_nat (length p)) None
      (add_trace w1 (map (fun t => EvProcess t (Some e)) (Targets (core w)))).
Proof.
  cbv zeta. pose proof (Claims.Close_core w w1 Hc) as Hcore.
  destruct (Close_open_trace w w1 Ho Hc) as [Ht Hk].
  split; [exact Ht|].
  destruct (Claims.Write_message p Hp) as (b & Hb & Hm).
  unfold Write, Writer. simpl.
  replace (Z.of_nat (length p) - 1 <? 0) with false
    by (symmetry; apply Z.ltb_ge; destruct p; [congruence|simpl; lia]).
  rewrite Hb, Hm. unfold newEntry.
  rewrite (proj2 (Z.eqb_neq _ _) Hl), Hcore. simpl. rewrite Hs.
  unfold add_trace. simpl. rewrite Hk, Hi. rewrite Hcore. reflexivity.
Qed.

Lemma Write_after_Close_sync_witness :
  let w := Sync [] w0 in
  match Close w with
  | Some w1 => exists w2,
      Write (Writer app LevelInfo) env0 [Byte.x61] w1 = WriteReturned 1 None w2 /\
      trace w2 = trace w0 ++ [EvTargetClose console;
                              EvProcess console (Some (newEntry_entry app env0 (core w1)
                                                         LevelInfo "a"))]
  | None => False
  end.
Proof.
  cbv zeta. destruct (Close (Sync [] w0)) as [w1|] eqn:H; [|vm_compute in H; discriminate].
  destruct (Write_after_Close_sync (Sync [] w0) w1 app LevelInfo env0 [Byte.x61]
              eq_refl H eq_refl ltac:(unfold_levels; lia) ltac:(discriminate) eq_refl)
    as [Ht Hw].
  eexists. split; [exact Hw|]. simpl. rewrite Ht. reflexivity.
Defined.

(** ** The polling loop of [newFatalEntry] *)

(** One iteration of the fatal polling loop: while [goroutines > 0] the
    caller only sleeps; once it is [<= 0] the action is taken: Nothing
    returns from the call with nothing logged, Panic panics with
    "Fatal error.", Exit has every target process a Warn entry
    "Forced to exit." of the caller's category, stamped with the time read
    at that moment and with no call stack, then exits with status -1,
    after which nothing runs. *)
Theorem fatal_poll_outcomes (now' : Z) (w : World) (lg : Logger) (env : Env)
    (Hw : caller w = CFatalWait lg env) :
  (0 < goroutines (core w) -> fatal_poll now' w = w) /\
  (goroutines (core w) <= 0 -> fatalAction (core w) = ActionNothing ->
     fatal_poll now' w = set_caller w CIdle) /\
  (goroutines (core w) <= 0 -> fatalAction (core w) = ActionPanic ->
     core (fatal_poll now' w) = core w /\
     trace (fatal_poll now' w) = trace w ++ [EvPanic "Fatal error."] /\
     caller (fatal_poll now' w) = CPanicked "Fatal error.") /\
  (goroutines (core w) <= 0 -> fatalAction (core w) = ActionExit ->
     exists e, eLevel e = LevelWarn /\ eCategory e = Category lg /\
       eMessage e = "Forced to exit." /\ eTime e = now' /\ eCallStack e = "" /\
       core (fatal_poll now' w) = core w /\
       trace (fatal_poll now' w) =
         trace w ++ map (fun t => EvProcess t (Some e)) (Targets (core w)) ++ [EvExit (-1)] /\
       caller (fatal_poll now' w) = CExited /\
       (forall s, sched_step s (fatal_poll now' w) = None)).
Proof.
  unfold fatal_poll. rewrite Hw. split; [|split; [|split]].
  - intros Hg. now rewrite (proj2 (Z.leb_gt _ _) Hg).
  - intros Hg Ha. now rewrite (proj2 (Z.leb_le _ _) Hg), Ha.
  - intros Hg Ha. rewrite (proj2 (Z.leb_le _ _) Hg), Ha. simpl. auto.
  - intros Hg Ha. rewrite (proj2 (Z.leb_le _ _) Hg), Ha.
    set (e0 := mkEntry LevelWarn (Category lg) "Forced to exit." now' "" "").
    exists (set_FormattedMessage e0 (LFormatter lg e0)).
    repeat (split; [reflexivity|]). simpl. split; [now rewrite <- app_assoc|].
    split; [reflexivity|]. intros sc. reflexivity.
Qed.

Lemma fatal_poll_outcomes_witness :
  let w := set_caller (set_core w0 (set_fatalAction (core w0) ActionPanic)) (CFatalWait app env0) in
  trace (fatal_poll 5 w) = trace w0 ++ [EvPanic "Fatal error."].
Proof.
  cbv zeta.
  destruct (fatal_poll_outcomes 5
              (set_caller (set_core w0 (set_fatalAction (core w0) ActionPanic)) (CFatalWait app env0))
              app env0 eq_refl) as (_ & _ & HP & _).
  destruct (HP ltac:(vm_compute; discriminate) eq_refl) as (_ & Ht & _). exact Ht.
Defined.

(** ** The nil sentinel *)

(** [Close] leaves [goroutines] as it is, yet a dispatcher that has
    received the nil sentinel calls [Process(nil)] on every target of
    [l.Targets] at that moment, lowers [goroutines] by one and stops for
    good. *)
Theorem sentinel_stops_dispatcher (w : World) (j : nat)
    (Hj : gors w !! j = Some (GHave None)) :
  (forall v v1, Close v = Some v1 -> goroutines (core v1) = goroutines (core v)) /\
  exists w', gor_step j w = Some w' /\
    trace w' = trace w ++ map (fun t => EvProcess t None) (Targets (core w)) /\
    goroutines (core w') = goroutines (core w) - 1 /\
    gors w' !! j = Some GDone /\ gor_step j w' = None.
Proof.
  split.
  - intros v v1 Hc. rewrite (Claims.Close_core v v1 Hc). reflexivity.
  - assert (Hjl : (j < length (gors w))%nat) by (apply lookup_lt_is_Some; eauto).
    unfold gor_step. rewrite Hj. eexists. split; [reflexivity|].
    cbn [core gors trace set_gors set_core add_trace].
    split; [reflexivity|]. split; [reflexivity|].
    assert (HD : <[j:=GDone]> (gors w) !! j = Some GDone)
      by (apply list_lookup_insert_eq; exact Hjl).
    split; [exact HD|]. cbn [gors set_gors]. rewrite HD. reflexivity.
Qed.

Lemma sentinel_stops_dispatcher_witness :
  match run [SGor 0; SCall OpClose; SGor 0] w0 with
  | Some w => exists w', gor_step 0 w = Some w' /\ goroutines (core w') = -1
  | None => False
  end.
Proof.
  destruct (run [SGor 0; SCall OpClose; SGor 0] w0) as [w|] eqn:H;
    [|vm_compute in H; discriminate].
  vm_compute in H. injection H as Hw.
  destruct (sentinel_stops_dispatcher w 0 ltac:(rewrite <- Hw; reflexivity))
    as (_ & w' & Hs & _ & Hg & _).
  exists w'. split; [exact Hs|]. rewrite Hg, <- Hw. reflexivity.
Defined.

(** ** Sends that block *)

Lemma find_receiver_none (c : nat) (gs : list Gor) (k : nat) :
  find_receiver c gs k = None <-> forall j, gs !! j <> Some (GRecv c).
Proof.
  split.
  - revert k. induction gs as [|g gs IH]; intros k H j; [rewrite lookup_nil; congruence|].
    assert (Hrest : find_receiver c gs (S k) = None).
    { simpl in H. destruct g as [|c'| |]; try exact H.
      destruct (Nat.eqb c c'); [discriminate|exact H]. }
    destruct j as [|j]; simpl.
    + intros [= ->]. simpl in H. rewrite Nat.eqb_refl in H. discriminate.
    + exact (IH _ Hrest j).
  - intros H. destruct (find_receiver c gs k) as [j|] eqn:Hf; [|reflexivity].
    apply Claims.find_receiver_spec in Hf as [_ Hl]. exfalso. exact (H _ Hl).
Qed.

Lemma send_full (w : World) (i : nat) (c : Chan) (x : option Entry)
    (Hc : chans w !! i = Some c) (Hfull : cap c <= Z.of_nat (length (buf c))) :
  chan_send (Some i) x w = None <->
  (buf c <> [] \/ forall j, gors w !! j <> Some (GRecv i)).
Proof.
  unfold chan_send. rewrite Hc. rewrite (proj2 (Z.ltb_ge _ _) Hfull).
  destruct (buf c) as [|y ys].
  - destruct (find_receiver i (gors w) 0) as [j|] eqn:Hf.
    + split; [discriminate|]. intros [H|H]; [congruence|].
      apply Claims.find_receiver_spec in Hf as [_ Hl]. rewrite Nat.sub_0_r in Hl.
      exfalso. exact (H _ Hl).
    + split; [|reflexivity]. intros _. right. exact (proj1 (find_receiver_none _ _ _) Hf).
  - split; [intros _; left; discriminate|reflexivity].
Qed.

(** When the channel of an open engine is full (with [BufferSize = 0] it
    always is), [Close] and a non-Fatal asynchronous [Log] block exactly
    when entries are still waiting in the buffer or no dispatcher is
    blocked receiving on that channel. *)
Theorem send_blocks_when_full (w : World) (i : nat) (c : Chan)
    (Ho : open (core w) = true) (He : entries (core w) = Some i)
    (Hc : chans w !! i = Some c) (Hfull : cap c <= Z.of_nat (length (buf c))) :
  (Close w = None <-> (buf c <> [] \/ forall j, gors w !! j <> Some (GRecv i))) /\
  (forall lg env level message,
     level <> LevelFatal -> level <= MaxLevel (core w) -> SyncMode (core w) = false ->
     (Log lg env level message w = None <->
      (buf c <> [] \/ forall j, gors w !! j <> Some (GRecv i)))).
Proof.
  split.
  - rewrite <- (send_full w i c None Hc Hfull). unfold Close. rewrite Ho. simpl.
    unfold chan_send. simpl. rewrite He.
    destruct (chans w !! i); [|reflexivity].
    destruct (_ <? _); [split; discriminate|].
    destruct (buf c0); [|reflexivity].
    destruct (find_receiver _ _ _); split; congruence.
  - intros lg env level message Hl Hm Hs.
    set (w1 := set_core w (set_goroutines (core w) (goroutines (core w) + 1))).
    transitivity (chan_send (Some i) (Some (newEntry_entry lg env (core w) level message)) w1 = None).
    + unfold Log, newEntry, enqueue. rewrite (proj2 (Z.ltb_ge _ _) Hm), Ho.
      rewrite (proj2 (Z.eqb_neq _ _) Hl). simpl. rewrite Hs. simpl. rewrite He. reflexivity.
    + exact (send_full w1 i c _ Hc Hfull).
Qed.

Lemma send_blocks_when_full_witness :
  Close w_unbuffered = None.
Proof.
  apply (proj2 (proj1 (send_blocks_when_full w_unbuffered 0 (mkChan 0 [])
                         eq_refl eq_refl eq_refl ltac:(simpl; lia)))).
  right. intros j. destruct j as [|j]; vm_compute; congruence.
Defined.

End Extras.
